(** * deno-debug: namespace selection and the format pre-pass of [debug.ts]

    A shallow embedding of [src/debug.ts].  The ECMAScript built-ins the
    module relies on ([String.prototype.split], [String.prototype.replace],
    [RegExp]) are interpreted for the fragment the module exercises; strings
    are sequences of code units, here restricted to the range 0..255
    ([list ascii]). *)

From Stdlib Require Import Ascii String ZArith Bool Lia.
From stdpp Require Import base option list gmap strings pretty.

Local Open Scope list_scope.
Local Open Scope char_scope.

(** ** Strings *)

Abbreviation str := (list ascii).

Definition lit (s : string) : str := list_ascii_of_string s.

(** ECMAScript [LineTerminator] (code units up to 255): LF and CR. *)
Definition is_line_terminator (c : ascii) : bool :=
  Ascii.eqb c "010" || Ascii.eqb c "013".

(** ECMAScript [\s] (code units up to 255): TAB, LF, VT, FF, CR, SP, NBSP. *)
Definition is_white_space (c : ascii) : bool :=
  Ascii.eqb c "009" || Ascii.eqb c "010" || Ascii.eqb c "011" ||
  Ascii.eqb c "012" || Ascii.eqb c "013" || Ascii.eqb c " " ||
  Ascii.eqb c "160".

(** The character class [[\s,]] used by [enable] to split selectors. *)
Definition is_separator (c : ascii) : bool :=
  is_white_space c || Ascii.eqb c ",".

(** [s.split(/[\s,]+/)]: every maximal run of separators is one separator;
    a leading or trailing run yields an empty first or last piece, and the
    empty string yields one empty piece. *)
Fixpoint split_separators (s : str) : list str :=
  match s with
  | [] => [[]]
  | c :: s' =>
      if is_separator c then
        match s' with
        | c' :: _ => if is_separator c' then split_separators s'
                     else [] :: split_separators s'
        | [] => [] :: split_separators s'
        end
      else
        match split_separators s' with
        | t :: ts => (c :: t) :: ts
        | [] => [[c]]
        end
  end.

(** [ns.replace(/\*/g, ".*?")] *)
Definition replace_stars (ns : str) : str :=
  flat_map (fun c => if Ascii.eqb c "*" then lit ".*?" else [c]) ns.

(** [s.substring(from, to)]: both indices are clamped to the length and
    swapped when out of order. *)
Definition substring (from to : Z) (s : str) : str :=
  let len := Z.of_nat (length s) in
  let a := Z.min (Z.max from 0) len in
  let b := Z.min (Z.max to 0) len in
  let lo := Z.to_nat (Z.min a b) in
  let hi := Z.to_nat (Z.max a b) in
  take (hi - lo) (drop lo s).

(** [parts.join(",")] *)
Fixpoint join_comma (parts : list str) : str :=
  match parts with
  | [] => []
  | [p] => p
  | p :: ps => p ++ "," :: join_comma ps
  end.

(** ** Regular expressions

    The fragment of ECMAScript patterns that is interpreted: pattern
    characters, [.], the assertions [^] and [$], alternation, capturing and
    non-capturing groups, the quantifiers [*], [+], [?] (greedy or lazy) and
    identity escapes of syntax characters.  Character classes, braced
    quantifiers, look-around groups and the other escapes are outside it.
    [test] only reports whether a match exists, so laziness and capture
    numbering are not recorded. *)

Inductive regex : Type :=
  | RChar (c : ascii)
  | RAny
  | RBol
  | REol
  | REmpty
  | RSeq (r1 r2 : regex)
  | RAlt (r1 r2 : regex)
  | RStar (r : regex).

(** Outcome of an operation that may throw; [Unsupported] marks an input
    outside the interpreted fragment of the language. *)
Inductive completion (A : Type) : Type :=
  | Normal (a : A)
  | Throw (e : string)
  | Unsupported.
Arguments Normal {A} a.
Arguments Throw {A} e.
Arguments Unsupported {A}.

Module Pattern.

Inductive cclass : Type :=
  | Caret | Dollar | Dot | Star | Plus | Quest | Bar
  | LParen | RParen | Backslash | Opening | Plain.

Definition classify (c : ascii) : cclass :=
  if Ascii.eqb c "^" then Caret
  else if Ascii.eqb c "$" then Dollar
  else if Ascii.eqb c "." then Dot
  else if Ascii.eqb c "*" then Star
  else if Ascii.eqb c "+" then Plus
  else if Ascii.eqb c "?" then Quest
  else if Ascii.eqb c "|" then Bar
  else if Ascii.eqb c "(" then LParen
  else if Ascii.eqb c ")" then RParen
  else if Ascii.eqb c "\" then Backslash
  else if Ascii.eqb c "[" || Ascii.eqb c "{" then Opening
  else Plain.

(** [SyntaxCharacter], plus [/]: the characters whose escape [\c] denotes
    the character itself. *)
Definition is_syntax_char (c : ascii) : bool :=
  match classify c with
  | Plain => Ascii.eqb c "/" || Ascii.eqb c "]" || Ascii.eqb c "}"
  | _ => true
  end.

(** What the last term of the alternative being read was: nothing that
    can be repeated, an atom, or an atom with its quantifier. *)
Inductive last_term : Type := NoAtom | Atom | Quantified.

Record frame : Type := Frame {
  f_alts : list regex;   (* finished alternatives, in order *)
  f_seq : list regex;    (* terms of the current alternative, reversed *)
  f_last : last_term
}.

Definition empty_frame : frame := Frame [] [] NoAtom.

Definition push_term (r : regex) (k : last_term) (f : frame) : frame :=
  Frame (f_alts f) (r :: f_seq f) k.

Definition close_frame (f : frame) : regex :=
  foldr RAlt (foldr RSeq REmpty (rev (f_seq f))) (f_alts f).

Definition next_alternative (f : frame) : frame :=
  Frame (f_alts f ++ [foldr RSeq REmpty (rev (f_seq f))]) [] NoAtom.

(** Apply a quantifier to the last atom. *)
Definition quantify (q : regex -> regex) (f : frame) : completion frame :=
  match f_last f, f_seq f with
  | Atom, r :: rs => Normal (Frame (f_alts f) (q r :: rs) Quantified)
  | _, _ => Throw "SyntaxError: Nothing to repeat"
  end.

Definition q_star (r : regex) : regex := RStar r.
Definition q_plus (r : regex) : regex := RSeq r (RStar r).
Definition q_opt (r : regex) : regex := RAlt r REmpty.

Fixpoint parse (p : str) (cur : frame) (stack : list frame)
  : completion regex :=
  match p with
  | [] =>
      match stack with
      | [] => Normal (close_frame cur)
      | _ :: _ => Throw "SyntaxError: Unterminated group"
      end
  | c :: p' =>
      match classify c with
      | Plain => parse p' (push_term (RChar c) Atom cur) stack
      | Caret => parse p' (push_term RBol NoAtom cur) stack
      | Dollar => parse p' (push_term REol NoAtom cur) stack
      | Dot => parse p' (push_term RAny Atom cur) stack
      | Star =>
          match quantify q_star cur with
          | Normal cur' => parse p' cur' stack
          | Throw e => Throw e
          | Unsupported => Unsupported
          end
      | Plus =>
          match quantify q_plus cur with
          | Normal cur' => parse p' cur' stack
          | Throw e => Throw e
          | Unsupported => Unsupported
          end
      | Quest =>
          match f_last cur with
          | Quantified =>
              (* the lazy marker of the preceding quantifier *)
              parse p' (Frame (f_alts cur) (f_seq cur) NoAtom) stack
          | _ =>
              match quantify q_opt cur with
              | Normal cur' => parse p' cur' stack
              | Throw e => Throw e
              | Unsupported => Unsupported
              end
          end
      | Bar => parse p' (next_alternative cur) stack
      | LParen =>
          match p' with
          | "?" :: ":" :: p'' => parse p'' empty_frame (cur :: stack)
          | "?" :: _ => Unsupported
          | _ => parse p' empty_frame (cur :: stack)
          end
      | RParen =>
          match stack with
          | [] => Throw "SyntaxError: Unmatched ')'"
          | parent :: stack' =>
              parse p' (push_term (close_frame cur) Atom parent) stack'
          end
      | Backslash =>
          match p' with
          | [] => Throw "SyntaxError: \ at end of pattern"
          | e :: p'' =>
              if is_syntax_char e
              then parse p'' (push_term (RChar e) Atom cur) stack
              else Unsupported
          end
      | Opening => Unsupported
      end
  end.

(** The [source] of a RegExp: the pattern with [/] and line terminators
    escaped, so that [/source/] reads back as the same pattern. *)
Fixpoint escape (p : str) : str :=
  match p with
  | [] => []
  | c :: p' =>
      if Ascii.eqb c "\" then
        match p' with
        | e :: p'' => c :: e :: escape p''
        | [] => [c]
        end
      else if Ascii.eqb c "/" then "\" :: "/" :: escape p'
      else if Ascii.eqb c "010" then "\" :: "n" :: escape p'
      else if Ascii.eqb c "013" then "\" :: "r" :: escape p'
      else c :: escape p'
  end.

Definition source_of (p : str) : str :=
  match p with
  | [] => lit "(?:)"
  | _ => escape p
  end.

End Pattern.

(** A position of the matcher: whether it is index 0 of the input, and the
    input that remains. *)
Definition position : Type := bool * str.

(** Iterations of a starred term; an iteration that consumes nothing is
    not continued. *)
Fixpoint iterate (step : bool -> str -> list position) (fuel : nat)
    (b : bool) (s : str) : list position :=
  (b, s) ::
  match fuel with
  | O => []
  | S fuel' =>
      flat_map (fun p : position =>
                  if (length p.2 <? length s)%nat
                  then iterate step fuel' p.1 p.2 else [])
               (step b s)
  end.

(** The positions at which a match of [r] started at [(b, s)] can end. *)
Fixpoint ends (r : regex) (b : bool) (s : str) : list position :=
  match r with
  | RChar c =>
      match s with
      | c' :: s' => if Ascii.eqb c c' then [(false, s')] else []
      | [] => []
      end
  | RAny =>
      match s with
      | c' :: s' => if is_line_terminator c' then [] else [(false, s')]
      | [] => []
      end
  | RBol => if b then [(b, s)] else []
  | REol => match s with [] => [(b, s)] | _ :: _ => [] end
  | REmpty => [(b, s)]
  | RSeq r1 r2 => flat_map (fun p : position => ends r2 p.1 p.2) (ends r1 b s)
  | RAlt r1 r2 => ends r1 b s ++ ends r2 b s
  | RStar r1 => iterate (ends r1) (length s) b s
  end.

Definition some_position (l : list position) : bool :=
  match l with
  | [] => false
  | _ :: _ => true
  end.

(** A match may start at any index of the input. *)
Fixpoint search (r : regex) (b : bool) (s : str) : bool :=
  some_position (ends r b s) ||
  match s with
  | [] => false
  | _ :: s' => search r false s'
  end.

(** The same, as a relation: [matches r p q] when [r] matches the input
    between the positions [p] and [q].  An iteration of a starred term
    consumes at least one character. *)
Inductive matches : regex -> position -> position -> Prop :=
  | matches_char c s b :
      matches (RChar c) (b, c :: s) (false, s)
  | matches_any c s b :
      is_line_terminator c = false ->
      matches RAny (b, c :: s) (false, s)
  | matches_bol s :
      matches RBol (true, s) (true, s)
  | matches_eol b :
      matches REol (b, []) (b, [])
  | matches_empty p :
      matches REmpty p p
  | matches_seq r1 r2 p q t :
      matches r1 p q -> matches r2 q t -> matches (RSeq r1 r2) p t
  | matches_alt_l r1 r2 p q :
      matches r1 p q -> matches (RAlt r1 r2) p q
  | matches_alt_r r1 r2 p q :
      matches r2 p q -> matches (RAlt r1 r2) p q
  | matches_star_done r p :
      matches (RStar r) p p
  | matches_star_more r p q t :
      matches r p q -> length q.2 < length p.2 ->
      matches (RStar r) q t -> matches (RStar r) p t.

Record RegExp : Type := MkRegExp {
  re_source : str;
  re_ast : regex
}.

(** [new RegExp(pattern)] *)
Definition RegExp_new (pattern : str) : completion RegExp :=
  match Pattern.parse pattern Pattern.empty_frame [] with
  | Normal r => Normal (MkRegExp (Pattern.source_of pattern) r)
  | Throw e => Throw e
  | Unsupported => Unsupported
  end.

(** [regexp.test(s)] *)
Definition RegExp_test (re : RegExp) (s : str) : bool :=
  search (re_ast re) true s.

(** [regexp.toString()] *)
Definition RegExp_toString (re : RegExp) : str :=
  "/" :: re_source re ++ ["/"].


(** ** Values, instances and the module state *)

Inductive Value : Type :=
  | VUndefined
  | VNull
  | VBool (b : bool)
  | VNumber (n : Z)
  | VString (s : str)
  | VError (message : str)
  | VObject (id : nat).

(** [typeof v === "string"] *)
Definition as_string (v : Value) : option str :=
  match v with
  | VString s => Some s
  | _ => None
  end.

(** Truthiness, as used by [if (namespaces)]. *)
Definition truthy (v : Value) : bool :=
  match v with
  | VUndefined | VNull => false
  | VBool b => b
  | VNumber n => negb (n =? 0)%Z
  | VString s => match s with [] => false | _ :: _ => true end
  | VError _ | VObject _ => true
  end.

(** Modelled from the spec: [coerce] of [utils.ts], which is not among the
    sources.  An Error-like value is replaced by its descriptive message,
    any other value is left as it is. *)
Definition coerce (v : Value) : Value :=
  match v with
  | VError message => VString message
  | _ => v
  end.

(** The imports of [debug.ts] whose code is not among the sources:
    [selectColor] of [utils.ts], [format] of [format.ts] and [ms]. *)
Class Imports : Type := {
  selectColor : str -> Z;
  format : list Value -> str;
  ms : Z -> str
}.

Abbreviation addr := nat.

(** A [DebugInstance]: the properties of the function object, and the
    variables [currTime], [prevTime] and [diff] of its closure.  [d_log]
    is the handle of a host function, when one was assigned. *)
Record DebugInstance : Type := MkInstance {
  d_namespace : str;
  d_enabled : bool;
  d_color : Z;
  d_log : option nat;
  d_currTime : option Z;
  d_prevTime : option Z;
  d_diff : option Z
}.

Definition with_enabled (e : bool) (d : DebugInstance) : DebugInstance :=
  MkInstance (d_namespace d) e (d_color d) (d_log d)
             (d_currTime d) (d_prevTime d) (d_diff d).

Definition with_log (l : option nat) (d : DebugInstance) : DebugInstance :=
  MkInstance (d_namespace d) (d_enabled d) (d_color d) l
             (d_currTime d) (d_prevTime d) (d_diff d).

Definition with_times (cur prev diff : Z) (d : DebugInstance)
  : DebugInstance :=
  MkInstance (d_namespace d) (d_enabled d) (d_color d) (d_log d)
             (Some cur) (Some prev) (Some diff).

(** What the module does to the outside: a call of a directive formatter,
    and a call of the output function ([None] is [defaultLogger], which
    writes the line to stderr). *)
Inductive Event : Type :=
  | FormatterCall (directive : ascii) (val : Value)
  | LoggerCall (logger : option nat) (line : str).

Definition Formatter : Type := Value -> str.

(** The state of the module.  [heap] holds every instance ever created,
    by address; [instances] is the registry array, holding addresses.
    [clock k] is what the [k]-th read of the system clock returns. *)
Record World : Type := MkWorld {
  instances : list addr;
  heap : list DebugInstance;
  names : list RegExp;
  skips : list RegExp;
  formatters : gmap ascii Formatter;
  env_DEBUG : option Value;
  clock : nat -> Z;
  clock_reads : nat;
  trace : list Event
}.

Definition with_instances (v : list addr) (w : World) : World :=
  MkWorld v (heap w) (names w) (skips w) (formatters w) (env_DEBUG w)
          (clock w) (clock_reads w) (trace w).
Definition with_heap (v : list DebugInstance) (w : World) : World :=
  MkWorld (instances w) v (names w) (skips w) (formatters w) (env_DEBUG w)
          (clock w) (clock_reads w) (trace w).
Definition with_names (v : list RegExp) (w : World) : World :=
  MkWorld (instances w) (heap w) v (skips w) (formatters w) (env_DEBUG w)
          (clock w) (clock_reads w) (trace w).
Definition with_skips (v : list RegExp) (w : World) : World :=
  MkWorld (instances w) (heap w) (names w) v (formatters w) (env_DEBUG w)
          (clock w) (clock_reads w) (trace w).
Definition with_env_DEBUG (v : option Value) (w : World) : World :=
  MkWorld (instances w) (heap w) (names w) (skips w) (formatters w) v
          (clock w) (clock_reads w) (trace w).
Definition with_clock_reads (v : nat) (w : World) : World :=
  MkWorld (instances w) (heap w) (names w) (skips w) (formatters w)
          (env_DEBUG w) (clock w) v (trace w).
Definition with_trace (v : list Event) (w : World) : World :=
  MkWorld (instances w) (heap w) (names w) (skips w) (formatters w)
          (env_DEBUG w) (clock w) (clock_reads w) v.

(** Computations over the module state that may throw.  The state a
    throwing computation leaves behind is kept: an exception does not undo
    the assignments made before it. *)
Definition M (A : Type) : Type := World -> completion A * World.

#[export] Instance M_ret : MRet M := fun A a w => (Normal a, w).

#[export] Instance M_bind : MBind M := fun A B f m w =>
  match m w with
  | (Normal a, w') => f a w'
  | (Throw e, w') => (Throw e, w')
  | (Unsupported, w') => (Unsupported, w')
  end.

Definition get {A : Type} (f : World -> A) : M A := fun w => (Normal (f w), w).
Definition modify (f : World -> World) : M unit := fun w => (Normal tt, f w).
Definition lift {A : Type} (c : completion A) : M A := fun w => (c, w).

(** [l.forEach(f)] *)
Fixpoint forEach {A : Type} (f : A -> M unit) (l : list A) : M unit :=
  match l with
  | [] => mret tt
  | x :: l' => f x ;; forEach f l'
  end.

(** The initial state of the module, before [enable(currentEnv.DEBUG)]
    runs: no instance, no rule, no formatter. *)
Definition initial (DEBUG : option Value) (clk : nat -> Z) : World :=
  MkWorld [] [] [] [] ∅ DEBUG clk 0 [].

(** ** Enablement *)

(** [namespace[namespace.length - 1] === "*"] *)
Definition ends_with_star (namespace : str) : bool :=
  match last namespace with
  | Some c => Ascii.eqb c "*"
  | None => false
  end.

(** One [for (const re of rules) if (re.test(namespace))] loop: the rules
    whose [test] was evaluated, in order, and whether one accepted. *)
Fixpoint first_accepting (rules : list RegExp) (namespace : str)
  : list RegExp * bool :=
  match rules with
  | [] => ([], false)
  | re :: rules' =>
      if RegExp_test re namespace then ([re], true)
      else let '(tested, hit) := first_accepting rules' namespace in
           (re :: tested, hit)
  end.

(** [enabled(namespace)], with the rules it consulted on the way. *)
Definition enabled_run (w : World) (namespace : str) : list RegExp * bool :=
  if ends_with_star namespace then ([], true)
  else
    let '(tested_skips, skipped) := first_accepting (skips w) namespace in
    if skipped then (tested_skips, false)
    else
      let '(tested_names, named) := first_accepting (names w) namespace in
      (tested_skips ++ tested_names, named).

Definition enabled (w : World) (namespace : str) : bool :=
  (enabled_run w namespace).2.

(** ** Compiling a selector *)

Definition updateNamespacesEnv (namespaces : Value) : M unit :=
  modify (with_env_DEBUG (if truthy namespaces then Some namespaces else None)).

(** The body of the [forEach] of [enable], for one piece in which [*] was
    already replaced. *)
Definition enable_piece (ns : str) : M unit :=
  match ns with
  | [] => mret tt
  | c :: rest =>
      if Ascii.eqb c "-" then
        re ← lift (RegExp_new ("^" :: rest ++ ["$"]));
        modify (fun w => with_skips (skips w ++ [re]) w)
      else
        re ← lift (RegExp_new ("^" :: ns ++ ["$"]));
        modify (fun w => with_names (names w ++ [re]) w)
  end.

Definition refresh_instance (instance : addr) : M unit :=
  modify (fun w =>
    with_heap (alter (fun d => with_enabled (enabled w (d_namespace d)) d)
                     instance (heap w)) w).

Definition enable (namespaces : Value) : M unit :=
  updateNamespacesEnv namespaces ;;
  modify (with_names []) ;;
  modify (with_skips []) ;;
  forEach enable_piece
    (map replace_stars
       (split_separators (default [] (as_string namespaces)))) ;;
  registry ← get instances;
  forEach refresh_instance registry.

(** [.replace(/\.\*\?$/, "*")]: the pattern is anchored at the end and has
    no [g] flag, so only a final [.*?] is replaced. *)
Fixpoint replace_final_wildcard (s : str) : str :=
  match s with
  | ["."; "*"; "?"] => ["*"]
  | c :: s' => c :: replace_final_wildcard s'
  | [] => []
  end.

Definition regexpToNamespace (regexp : RegExp) : str :=
  let s := RegExp_toString regexp in
  replace_final_wildcard (substring 2 (Z.of_nat (length s) - 2) s).

Definition disable : M str :=
  allow ← get names;
  deny ← get skips;
  let namespaces :=
    join_comma (map regexpToNamespace allow ++
                map (cons "-") (map regexpToNamespace deny)) in
  enable (VString []) ;;
  mret namespaces.

(** ** The format pre-pass *)

Definition is_letter (c : ascii) : bool :=
  let n := nat_of_ascii c in
  ((97 <=? n) && (n <=? 122) || (65 <=? n) && (n <=? 90))%nat.

(** The pieces [/%([a-zA-Z%])/g] cuts a template into: the matches, and
    the characters between them. *)
Inductive piece : Type :=
  | Text (c : ascii)
  | Directive (letter : ascii).

Fixpoint scan (s : str) : list piece :=
  match s with
  | [] => []
  | c :: s1 =>
      match s1 with
      | f :: s2 =>
          if Ascii.eqb c "%" && (is_letter f || Ascii.eqb f "%")
          then Directive f :: scan s2
          else Text c :: scan s1
      | [] => [Text c]
      end
  end.

(** The variables the replace callback of [applyFormatters] works on. *)
Record fmt_state : Type := MkFmt {
  fs_index : nat;
  fs_args : list Value;
  fs_calls : list Event
}.

(** The callback, for the match [%letter]. *)
Definition on_match (fm : gmap ascii Formatter) (letter : ascii)
    (st : fmt_state) : str * fmt_state :=
  if Ascii.eqb letter "%" then (["%"; "%"], st)
  else
    let index := S (fs_index st) in
    match fm !! letter with
    | Some formatter =>
        let val := default VUndefined (fs_args st !! index) in
        (formatter val,
         MkFmt (index - 1) (delete index (fs_args st))
               (fs_calls st ++ [FormatterCall letter val]))
    | None => (["%"; letter], MkFmt index (fs_args st) (fs_calls st))
    end.

Fixpoint replace_matches (fm : gmap ascii Formatter) (ps : list piece)
    (st : fmt_state) : str * fmt_state :=
  match ps with
  | [] => ([], st)
  | Text c :: ps' =>
      let '(out, st') := replace_matches fm ps' st in (c :: out, st')
  | Directive letter :: ps' =>
      let '(m, st1) := on_match fm letter st in
      let '(out, st2) := replace_matches fm ps' st1 in
      (m ++ out, st2)
  end.

(** [args[0] = coerce(args[0])], which extends an empty array, and the
    [unshift] of [%O] before a first argument that is not a string. *)
Definition prepare_args (args : list Value) : list Value :=
  let args := match args with
              | [] => [coerce VUndefined]
              | a :: rest => coerce a :: rest
              end in
  match args with
  | VString _ :: _ => args
  | _ => VString (lit "%O") :: args
  end.

Definition applyFormatters (fm : gmap ascii Formatter) (args : list Value)
  : list Value * list Event :=
  let args := prepare_args args in
  let template := default [] (head args ≫= as_string) in
  let '(out, st) := replace_matches fm (scan template) (MkFmt 0 args []) in
  (<[0 := VString out]> (fs_args st), fs_calls st).

(** ** Instances *)

Section Instances.
Context `{Imports}.

Definition ESC : ascii := "027".

Definition number (n : Z) : str := lit (pretty n).

Definition prettifyLog (namespace : str) (color diff : Z)
    (args : list Value) : str :=
  let colorCode :=
    ESC :: lit "[3" ++
    (if (color <? 8)%Z then number color else lit "8;5;" ++ number color) in
  let prefix :=
    lit "  " ++ colorCode ++ lit ";1m" ++ namespace ++ " " :: ESC :: lit "[0m" in
  prefix ++ format args ++ " " :: colorCode ++ lit "m+" ++ ms diff ++
  ESC :: lit "[0m".

(** [debug(...args)]: a call of the instance at [self]. *)
Definition invoke (self : addr) (args : list Value) : M unit := fun w =>
  match heap w !! self with
  | None => (Unsupported, w)
  | Some debug =>
      if negb (d_enabled debug) then (Normal tt, w)
      else
        let currTime := clock w (clock_reads w) in
        let prevTime :=
          match d_prevTime debug with
          | Some p => if (p =? 0)%Z then currTime else p
          | None => currTime
          end in
        let diff := (currTime - prevTime)%Z in
        let '(customFormattedArgs, calls) :=
          applyFormatters (formatters w) args in
        let prettyLog :=
          prettifyLog (d_namespace debug) (d_color debug) diff
                      customFormattedArgs in
        (Normal tt,
         with_trace (trace w ++ calls ++ [LoggerCall (d_log debug) prettyLog])
           (with_clock_reads (S (clock_reads w))
              (with_heap
                 (<[self := with_times currTime currTime diff debug]> (heap w))
                 w)))
  end.

(** [createDebug(namespace)]: the new function object gets the next free
    address; [log] is not assigned. *)
Definition createDebug (namespace : str) : M addr := fun w =>
  let color := selectColor namespace in
  let debug :=
    MkInstance namespace (enabled w namespace) color None None None None in
  let a := length (heap w) in
  (Normal a, with_instances (instances w ++ [a]) (with_heap (heap w ++ [debug]) w)).

(** [instance.destroy()] *)
Definition destroy (this : addr) : M bool := fun w =>
  match list_find (eq this) (instances w) with
  | Some (index, _) =>
      (Normal true, with_instances (delete index (instances w)) w)
  | None => (Normal false, w)
  end.

(** [instance.extend(subNamespace, delimiter)], called as a method: [this]
    is the instance whose closure holds [namespace].  An omitted delimiter
    is [None]. *)
Definition extend (this : addr) (subNamespace : str)
    (delimiter : option str) : M addr := fun w =>
  match heap w !! this with
  | None => (Unsupported, w)
  | Some parent =>
      let newNamespace :=
        d_namespace parent ++ default [":"] delimiter ++ subNamespace in
      (newDebug ← createDebug newNamespace;
       modify (fun w' =>
         with_heap (alter (with_log (d_log parent)) newDebug (heap w')) w') ;;
       mret newDebug) w
  end.

End Instances.

(** What runs when the module is loaded: [enable(currentEnv.DEBUG)]. *)
Definition load (DEBUG : option Value) (clk : nat -> Z)
  : completion unit * World :=
  enable (default VUndefined DEBUG) (initial DEBUG clk).

(** The calls a host can make besides [enable] and [disable]. *)
Inductive call : Type :=
  | CreateDebug (namespace : str)
  | Invoke (self : addr) (args : list Value)
  | Destroy (this : addr)
  | Extend (this : addr) (subNamespace : str) (delimiter : option str)
  | Enabled (namespace : str).

Definition perform `{Imports} (c : call) (w : World) : World :=
  match c with
  | CreateDebug namespace => (createDebug namespace w).2
  | Invoke self args => (invoke self args w).2
  | Destroy this => (destroy this w).2
  | Extend this subNamespace delimiter =>
      (extend this subNamespace delimiter w).2
  | Enabled namespace => w
  end.

(** Every address of the registry is the address of an instance. *)
Definition registry_ok (w : World) : bool :=
  forallb (fun a => a <? length (heap w))%nat (instances w).

(** ** Reference definitions, following the specification *)

(** Glob matching of a whole namespace against a token: every character of
    the token stands for itself, except [*], which stands for any sequence
    of characters that [wild] admits. *)
Fixpoint glob (wild : ascii -> bool) (token namespace : str) : bool :=
  match token with
  | [] => match namespace with [] => true | _ :: _ => false end
  | c :: token' =>
      if Ascii.eqb c "*" then
        (fix skip (n : str) : bool :=
           glob wild token' n ||
           match n with
           | x :: n' => wild x && skip n'
           | [] => false
           end) namespace
      else
        match namespace with
        | x :: n' => Ascii.eqb c x && glob wild token' n'
        | [] => false
        end
  end.

(** The wildcard of the specification: any sequence of characters. *)
Definition any_char (c : ascii) : bool := true.

(** The wildcard of [.*?]: any sequence without a line terminator. *)
Definition same_line (c : ascii) : bool := negb (is_line_terminator c).

(** A character that a pattern reads as itself, or the wildcard; and not
    one that [enable] splits at. *)
Definition glob_char (c : ascii) : bool :=
  negb (is_separator c) &&
  (Ascii.eqb c "*" ||
   match Pattern.classify c with Pattern.Plain => true | _ => false end).

(** The pattern term a character of a glob token stands for, and the
    expression [enable] builds for the token. *)
Definition glob_atom (c : ascii) : regex :=
  if Ascii.eqb c "*" then RStar RAny else RChar c.

Definition glob_regex (token : str) : regex :=
  foldr RSeq REmpty (RBol :: map glob_atom token ++ [REol]).

(** The rule of a token: deny rules are written with a leading [-]. *)
Definition token_body (token : str) : bool * str :=
  match token with
  | c :: rest => if Ascii.eqb c "-" then (true, rest) else (false, token)
  | [] => (false, [])
  end.

(** The pre-pass with a cursor over the positional arguments: a directive
    other than [%%] takes the next argument; a registered one is replaced
    by what its formatter returns and its argument is dropped, any other
    one stays as written and its argument stays in the sequence.  Returns
    the new template, the arguments that remain and the formatter calls. *)
Fixpoint expand (fm : gmap ascii Formatter) (ps : list piece)
    (rest : list Value) : str * list Value * list Event :=
  match ps with
  | [] => ([], rest, [])
  | Text c :: ps' =>
      let '(out, kept, calls) := expand fm ps' rest in
      (c :: out, kept, calls)
  | Directive letter :: ps' =>
      if Ascii.eqb letter "%" then
        let '(out, kept, calls) := expand fm ps' rest in
        ("%" :: "%" :: out, kept, calls)
      else
        let '(out, kept, calls) := expand fm ps' (tail rest) in
        match fm !! letter with
        | Some formatter =>
            let val := default VUndefined (head rest) in
            (formatter val ++ out, kept, FormatterCall letter val :: calls)
        | None =>
            ("%" :: letter :: out, option_list (head rest) ++ kept, calls)
        end
  end.

(** How many positional arguments the directives of [ps] take. *)
Fixpoint consumed (ps : list piece) : nat :=
  match ps with
  | [] => 0
  | Text _ :: ps' => consumed ps'
  | Directive letter :: ps' =>
      if Ascii.eqb letter "%" then consumed ps' else S (consumed ps')
  end.

(** The text a piece was cut from. *)
Definition piece_text (p : piece) : str :=
  match p with
  | Text c => [c]
  | Directive letter => ["%"; letter]
  end.

(** A piece for which no formatter runs: text, [%%], or a directive whose
    letter has no entry in the table. *)
Definition passes (fm : gmap ascii Formatter) (p : piece) : bool :=
  match p with
  | Text _ => true
  | Directive letter =>
      Ascii.eqb letter "%" ||
      match fm !! letter with None => true | Some _ => false end
  end.

(** ** A host, for running examples *)

Definition char_sum (s : str) : Z :=
  foldr (fun c acc => (Z.of_nat (nat_of_ascii c) + acc)%Z) 0%Z s.

Definition show (v : Value) : str :=
  match v with
  | VUndefined => lit "undefined"
  | VNull => lit "null"
  | VBool b => if b then lit "true" else lit "false"
  | VNumber n => lit (pretty n)
  | VString s => s
  | VError message => message
  | VObject _ => lit "[object Object]"
  end.

#[export] Instance example_imports : Imports := {|
  selectColor := fun namespace => (char_sum namespace mod 6 + 1)%Z;
  format := fun args => flat_map (fun v => show v ++ [" "]) args;
  ms := fun diff => lit (pretty diff) ++ lit "ms"
|}.

Definition sel (s : string) : Value := VString (lit s).

Definition example_formatters : gmap ascii Formatter :=
  <["O" := fun v => "<" :: show v ++ [">"]]> ∅.

Definition example_world : World := initial None (fun k => (1000 + 150 * Z.of_nat k)%Z).

(** ** Vocabulary of the further properties *)

(** The pieces of a selector that [enable] does not ignore. *)
Definition selector_tokens (s : str) : list str :=
  List.filter (fun t => match t with [] => false | _ :: _ => true end)
              (split_separators s).

(** A token whose only wildcard, if any, is its last character. *)
Fixpoint final_star_only (t : str) : bool :=
  match t with
  | [] => true
  | c :: t' =>
      match t' with
      | [] => true
      | _ :: _ => negb (Ascii.eqb c "*") && final_star_only t'
      end
  end.

(** A token of glob characters without [/], which [toString] would
    escape. *)
Definition slash_free (t : str) : bool :=
  forallb (fun c => negb (Ascii.eqb c "/")) t.

(** A token of glob characters none of which is the wildcard. *)
Definition literal_token (t : str) : bool :=
  forallb (fun c => glob_char c && negb (Ascii.eqb c "*")) t.

(** The states the module can be in: the state it is loaded in, and what
    the calls of its interface make of a state. *)
Inductive reachable `{Imports} : World -> Prop :=
  | reachable_initial DEBUG clk :
      reachable (initial DEBUG clk)
  | reachable_enable v w :
      reachable w -> reachable (enable v w).2
  | reachable_disable w :
      reachable w -> reachable (disable w).2
  | reachable_perform c w :
      reachable w -> reachable (perform c w)
  | reachable_formatters fm w :
      reachable w ->
      reachable (MkWorld (instances w) (heap w) (names w) (skips w) fm
                         (env_DEBUG w) (clock w) (clock_reads w) (trace w))
  | reachable_log a l w :
      reachable w ->
      reachable (with_heap (alter (with_log l) a (heap w)) w).

(** The heap after the loop of [enable] over the registry [l], the rules
    being those of [w]. *)
Definition refresh_heap (w : World) (l : list addr)
    (h : list DebugInstance) : list DebugInstance :=
  foldl (fun h a =>
           alter (fun d => with_enabled (enabled w (d_namespace d)) d) a h)
        h l.

(** * Properties *)

(** ** Enablement *)

Lemma first_accepting_hit rules namespace :
  (first_accepting rules namespace).2 =
  existsb (fun re => RegExp_test re namespace) rules.
Proof.
  induction rules as [|re rules IH]; simpl; [done|].
  destruct (RegExp_test re namespace); [done|].
  destruct (first_accepting rules namespace) as [tested hit]; simpl in *.
  exact IH.
Qed.

(** C1: a namespace whose last character is [*] is enabled whatever the
    allow and deny lists hold, and no rule is consulted to decide it. *)
Theorem enabled_trailing_star (w : World) (namespace : str) :
  last namespace = Some "*" ->
  enabled w namespace = true /\ enabled_run w namespace = ([], true).
Proof.
  intros Hlast. unfold enabled, enabled_run, ends_with_star.
  rewrite Hlast. simpl. split; reflexivity.
Qed.

Lemma enabled_trailing_star_witness :
  let w := (enable (sel "-lib:*") example_world).2 in
  enabled w (lit "lib:*") = true /\ enabled_run w (lit "lib:*") = ([], true).
Proof. apply enabled_trailing_star. reflexivity. Defined.

(** C2: for a namespace that does not end in [*], a matching deny rule
    gives false whatever the allow rules say; with no matching deny rule
    the result is whether some allow rule matches, so false when none
    does. *)
Theorem enabled_deny_precedence (w : World) (namespace : str) :
  last namespace <> Some "*" ->
  enabled w namespace =
    negb (existsb (fun re => RegExp_test re namespace) (skips w)) &&
    existsb (fun re => RegExp_test re namespace) (names w).
Proof.
  intros Hlast. unfold enabled, enabled_run, ends_with_star.
  destruct (last namespace) as [c|] eqn:El.
  - destruct (Ascii.eqb_spec c "*") as [->|_]; [congruence|].
    rewrite <- !first_accepting_hit.
    destruct (first_accepting (skips w) namespace) as [ts hs].
    destruct hs; simpl; [done|].
    destruct (first_accepting (names w) namespace) as [tn hn]. done.
  - rewrite <- !first_accepting_hit.
    destruct (first_accepting (skips w) namespace) as [ts hs].
    destruct hs; simpl; [done|].
    destruct (first_accepting (names w) namespace) as [tn hn]. done.
Qed.

Lemma enabled_deny_precedence_witness :
  let w := (enable (sel "api:*,-api:internal") example_world).2 in
  enabled w (lit "api:internal") = false /\
  enabled w (lit "api:public") = true /\
  enabled w (lit "web") = false.
Proof.
  cbv zeta. split; [|split];
    (rewrite enabled_deny_precedence; [reflexivity | discriminate]).
Defined.

(** ** The matcher computes the matching relation *)

Lemma iterate_more_fuel (step : bool -> str -> list position) (q : position) :
  forall n m b s,
    n <= m -> q ∈ iterate step n b s -> q ∈ iterate step m b s.
Proof.
  induction n as [|n IH]; intros m b s Hle Hq.
  - simpl in Hq. apply list_elem_of_singleton in Hq as ->.
    destruct m; apply list_elem_of_here.
  - destruct m as [|m]; [lia|]. cbn [iterate] in *.
    apply elem_of_cons in Hq as [->|Hq]; [apply list_elem_of_here|].
    apply list_elem_of_further.
    apply list_elem_of_In, in_flat_map in Hq as (p & Hp & Hq).
    apply list_elem_of_In, in_flat_map. exists p. split; [done|].
    destruct (length p.2 <? length s)%nat; [|done].
    apply list_elem_of_In, (IH m); [lia|]. by apply list_elem_of_In.
Qed.

Lemma ends_sound (r : regex) :
  forall b s q, q ∈ ends r b s -> matches r (b, s) q.
Proof.
  induction r as [c| | | | |r1 IH1 r2 IH2|r1 IH1 r2 IH2|r IH]; intros b s q Hq.
  - destruct s as [|x s]; simpl in Hq; [by apply not_elem_of_nil in Hq|].
    destruct (Ascii.eqb_spec c x) as [->|]; [|by apply not_elem_of_nil in Hq].
    apply list_elem_of_singleton in Hq as ->. constructor.
  - destruct s as [|x s]; simpl in Hq; [by apply not_elem_of_nil in Hq|].
    destruct (is_line_terminator x) eqn:Ex; [by apply not_elem_of_nil in Hq|].
    apply list_elem_of_singleton in Hq as ->. by constructor.
  - destruct b; simpl in Hq; [|by apply not_elem_of_nil in Hq].
    apply list_elem_of_singleton in Hq as ->. constructor.
  - destruct s; simpl in Hq; [|by apply not_elem_of_nil in Hq].
    apply list_elem_of_singleton in Hq as ->. constructor.
  - apply list_elem_of_singleton in Hq as ->. constructor.
  - cbn [ends] in Hq.
    apply list_elem_of_In, in_flat_map in Hq as ([b1 s1] & Hp & Hq).
    apply matches_seq with (b1, s1).
    + by apply IH1, list_elem_of_In.
    + by apply IH2, list_elem_of_In.
  - cbn [ends] in Hq. apply elem_of_app in Hq as [Hq|Hq].
    + by apply matches_alt_l, IH1.
    + by apply matches_alt_r, IH2.
  - cbn [ends] in Hq. remember (length s) as fuel eqn:Ef. clear Ef.
    revert b s Hq.
    induction fuel as [|fuel IHf]; intros b s Hq.
    + apply list_elem_of_singleton in Hq as ->. constructor.
    + cbn [iterate] in Hq.
      apply elem_of_cons in Hq as [->|Hq]; [constructor|].
      apply list_elem_of_In, in_flat_map in Hq as ([b1 s1] & Hp & Hq).
      cbn [fst snd] in Hq.
      destruct (Nat.ltb_spec (length s1) (length s)) as [Hlt|]; [|done].
      apply matches_star_more with (b1, s1).
      * by apply IH, list_elem_of_In.
      * done.
      * by apply IHf, list_elem_of_In.
Qed.

Lemma ends_complete (r : regex) (p q : position) :
  matches r p q -> q ∈ ends r p.1 p.2.
Proof.
  induction 1 as [c s b|c s b Hc|s|b|p|r1 r2 p q t _ IH1 _ IH2
                 |r1 r2 p q _ IH|r1 r2 p q _ IH|r p
                 |r p q t _ IH1 Hlt _ IH2]; cbn [ends fst snd].
  - rewrite Ascii.eqb_refl. apply list_elem_of_here.
  - rewrite Hc. apply list_elem_of_here.
  - apply list_elem_of_here.
  - apply list_elem_of_here.
  - destruct p. apply list_elem_of_here.
  - apply list_elem_of_In, in_flat_map. exists q.
    split; by apply list_elem_of_In.
  - apply elem_of_app. by left.
  - apply elem_of_app. by right.
  - destruct p as [b s]. cbn [fst snd].
    destruct (length s); apply list_elem_of_here.
  - destruct p as [b s], q as [b1 s1]. cbn [fst snd] in *.
    destruct (length s) as [|fuel] eqn:El; [lia|].
    cbn [iterate]. apply list_elem_of_further.
    apply list_elem_of_In, in_flat_map. exists (b1, s1).
    split; [by apply list_elem_of_In|]. cbn [fst snd].
    rewrite El. destruct (Nat.ltb_spec (length s1) (S fuel)) as [_|]; [|lia].
    apply list_elem_of_In.
    apply (iterate_more_fuel _ _ (length s1)); [lia|exact IH2].
Qed.

(** [ends] lists exactly the positions the relation gives. *)
Lemma ends_matches (r : regex) (b : bool) (s : str) (q : position) :
  q ∈ ends r b s <-> matches r (b, s) q.
Proof.
  split; [apply ends_sound|]. intros Hm. exact (ends_complete _ _ _ Hm).
Qed.

Lemma some_position_elem (l : list position) :
  some_position l = true <-> exists q, q ∈ l.
Proof.
  destruct l as [|p l]; simpl; split; try done.
  - intros [q Hq]. by apply not_elem_of_nil in Hq.
  - intros _. exists p. apply list_elem_of_here.
Qed.

(** [test] answers true exactly when the expression matches some part of
    the string; only a part that starts the string is at index 0. *)
Lemma search_matches (r : regex) (s : str) :
  forall b,
    search r b s = true <->
    exists pre suf q,
      s = pre ++ suf /\
      matches r (match pre with [] => b | _ :: _ => false end, suf) q.
Proof.
  induction s as [|x s IH]; intros b; cbn [search].
  - rewrite orb_false_r, some_position_elem. split.
    + intros [q Hq]. exists [], [], q. split; [done|]. by apply ends_matches.
    + intros (pre & suf & q & E & Hm).
      symmetry in E. apply app_eq_nil in E as [-> ->].
      exists q. by apply ends_matches.
  - rewrite orb_true_iff, some_position_elem, IH. split.
    + intros [[q Hq]|(pre & suf & q & -> & Hm)].
      * exists [], (x :: s), q. split; [done|]. by apply ends_matches.
      * exists (x :: pre), suf, q. split; [done|]. by destruct pre.
    + intros (pre & suf & q & E & Hm). destruct pre as [|y pre].
      * left. exists q. simpl in E. subst suf. by apply ends_matches.
      * right. injection E as -> ->. exists pre, suf, q.
        split; [done|]. by destruct pre.
Qed.

(** ** Compiling a selector *)

Lemma split_separators_token (token : str) :
  forallb (fun c => negb (is_separator c)) token = true ->
  split_separators token = [token].
Proof.
  induction token as [|c token IH]; simpl; [done|].
  intros [Hc Ht]%andb_prop. apply negb_true_iff in Hc. rewrite Hc.
  rewrite (IH Ht). done.
Qed.

Lemma glob_char_inv (c : ascii) :
  glob_char c = true ->
  is_separator c = false /\
  (c = "*" \/ (c <> "*" /\ Pattern.classify c = Pattern.Plain)).
Proof.
  unfold glob_char. intros [Hs Hc]%andb_prop. apply negb_true_iff in Hs.
  split; [done|].
  destruct (Ascii.eqb_spec c "*") as [->|Hne]; [by left|right].
  split; [done|]. simpl in Hc. by destruct (Pattern.classify c).
Qed.

Lemma parse_glob_body (body : str) :
  forallb glob_char body = true ->
  forall rest alts seq last stack,
  exists last',
    Pattern.parse (replace_stars body ++ rest)
                  (Pattern.Frame alts seq last) stack =
    Pattern.parse rest
      (Pattern.Frame alts (rev (map glob_atom body) ++ seq) last') stack.
Proof.
  induction body as [|c body IH]; intros Hall rest alts seq last stack.
  - exists last. done.
  - simpl in Hall. apply andb_prop in Hall as [Hc Hbody].
    apply glob_char_inv in Hc as [_ [->|[Hne Hplain]]].
    + destruct (IH Hbody rest alts (RStar RAny :: seq) Pattern.NoAtom stack)
        as [last' E].
      exists last'. simpl. rewrite <- app_assoc. exact E.
    + destruct (IH Hbody rest alts (RChar c :: seq) Pattern.Atom stack)
        as [last' E].
      exists last'. apply Ascii.eqb_neq in Hne.
      unfold replace_stars. simpl. rewrite Hne. simpl. rewrite Hplain.
      unfold glob_atom at 2. rewrite Hne. rewrite <- app_assoc. exact E.
Qed.

Lemma RegExp_new_glob (body : str) :
  forallb glob_char body = true ->
  exists source,
    RegExp_new ("^" :: replace_stars body ++ ["$"]) =
    Normal (MkRegExp source (glob_regex body)).
Proof.
  intros Hall. unfold RegExp_new.
  destruct (parse_glob_body body Hall ["$"] [] [RBol] Pattern.NoAtom [])
    as [last' E].
  change (Pattern.parse ("^" :: replace_stars body ++ ["$"])
                        Pattern.empty_frame [])
    with (Pattern.parse (replace_stars body ++ ["$"])
                        (Pattern.Frame [] [RBol] Pattern.NoAtom) []).
  rewrite E. simpl. eexists. f_equal. f_equal.
  unfold Pattern.close_frame, glob_regex. simpl.
  rewrite List.rev_app_distr, List.rev_involutive. done.
Qed.

Lemma some_position_flat_map (f : position -> list position)
    (l : list position) :
  some_position (flat_map f l) = existsb (fun p => some_position (f p)) l.
Proof.
  induction l as [|p l IH]; simpl; [done|].
  rewrite <- IH. by destruct (f p).
Qed.

Lemma exists_iterate_any (g : position -> bool) (h : str -> bool) :
  (forall b n, g (b, n) = h n) ->
  forall s fuel b,
    length s <= fuel ->
    existsb g (iterate (ends RAny) fuel b s) =
    (fix skip (n : str) : bool :=
       h n || match n with
              | x :: n' => same_line x && skip n'
              | [] => false
              end) s.
Proof.
  intros Hg. induction s as [|x s IH]; intros fuel b Hfuel.
  - destruct fuel; simpl; by rewrite Hg.
  - destruct fuel as [|fuel]; [simpl in Hfuel; lia|].
    simpl in Hfuel. simpl. rewrite Hg. f_equal. unfold same_line.
    destruct (is_line_terminator x); simpl; [done|].
    rewrite app_nil_r.
    replace (length s <? S (length s))%nat with true
      by (symmetry; apply Nat.ltb_lt; lia).
    apply IH. lia.
Qed.

Lemma ends_glob (body : str) :
  forall b ns,
    some_position (ends (foldr RSeq REmpty (map glob_atom body ++ [REol])) b ns)
    = glob same_line body ns.
Proof.
  induction body as [|c body IH]; intros b ns.
  - destruct ns; done.
  - cbn [map app foldr ends glob]. rewrite some_position_flat_map.
    unfold glob_atom at 2. destruct (Ascii.eqb c "*") eqn:Ec.
    + cbn [ends]. apply (exists_iterate_any _ (glob same_line body)); [|done].
      intros b' n. apply IH.
    + cbn [ends]. destruct ns as [|x ns]; [done|].
      destruct (Ascii.eqb c x); simpl; [|done].
      rewrite IH. apply orb_false_r.
Qed.

Lemma search_bol_false (r : regex) (s : str) :
  search (RSeq RBol r) false s = false.
Proof. induction s as [|x s IH]; simpl; [done|exact IH]. Qed.

Lemma test_glob_regex (source body ns : str) :
  RegExp_test (MkRegExp source (glob_regex body)) ns
  = glob same_line body ns.
Proof.
  unfold RegExp_test, glob_regex. simpl re_ast.
  change (foldr RSeq REmpty (RBol :: map glob_atom body ++ [REol]))
    with (RSeq RBol (foldr RSeq REmpty (map glob_atom body ++ [REol]))).
  destruct ns as [|x ns]; simpl; rewrite app_nil_r.
  - rewrite orb_false_r. apply ends_glob.
  - rewrite search_bol_false, orb_false_r. apply ends_glob.
Qed.

Lemma enabled_with_heap (h : list DebugInstance) (w : World) (ns : str) :
  enabled (with_heap h w) ns = enabled w ns.
Proof. reflexivity. Qed.

Lemma refresh_instances_from (l : list addr) (w : World) :
  forall h,
    forEach refresh_instance l (with_heap h w) =
    (Normal tt, with_heap (refresh_heap w l h) w).
Proof.
  induction l as [|a l IH]; intros h; [done|].
  change (forEach refresh_instance (a :: l) (with_heap h w))
    with (forEach refresh_instance l
            (with_heap (alter (fun d => with_enabled (enabled w (d_namespace d)) d)
                              a h) w)).
  rewrite IH. done.
Qed.

Lemma refresh_instances_run (l : list addr) (w : World) :
  forEach refresh_instance l w =
  (Normal tt, with_heap (refresh_heap w l (heap w)) w).
Proof.
  rewrite <- (refresh_instances_from l w (heap w)). by destruct w.
Qed.

Lemma refresh_heap_lookup (w : World) (l : list addr) :
  forall (h : list DebugInstance) (a : addr),
    refresh_heap w l h !! a =
    if decide (a ∈ l)
    then (fun d => with_enabled (enabled w (d_namespace d)) d) <$> h !! a
    else h !! a.
Proof.
  induction l as [|x l IH]; intros h a.
  - rewrite decide_False; [done|]. apply not_elem_of_nil.
  - change (refresh_heap w (x :: l) h)
      with (refresh_heap w l
              (alter (fun d => with_enabled (enabled w (d_namespace d)) d) x h)).
    rewrite IH, list_lookup_alter.
    destruct (decide (x = a)) as [<-|Hne].
    + rewrite (decide_True (P := x ∈ x :: l)) by apply list_elem_of_here.
      destruct (h !! x) as [d|]; simpl; by destruct (decide (x ∈ l)).
    + destruct (decide (a ∈ l)) as [Hin|Hnin].
      * rewrite decide_True; [done|]. by apply list_elem_of_further.
      * rewrite decide_False; [done|].
        intros [?|?]%elem_of_cons; [congruence|contradiction].
Qed.

Lemma enable_unfold (v : Value) (w : World) :
  enable v w =
  match forEach enable_piece
          (map replace_stars (split_separators (default [] (as_string v))))
          (with_skips [] (with_names []
             (with_env_DEBUG (if truthy v then Some v else None) w))) with
  | (Normal _, w1) =>
      (Normal tt, with_heap (refresh_heap w1 (instances w1) (heap w1)) w1)
  | (Throw e, w1) => (Throw e, w1)
  | (Unsupported, w1) => (Unsupported, w1)
  end.
Proof.
  unfold enable, mbind, M_bind, updateNamespacesEnv, modify, get.
  destruct (forEach enable_piece _ _) as [[[]|e|] w1]; [|done..].
  apply refresh_instances_run.
Qed.

Lemma enable_piece_frame (ns : str) (w : World) :
  instances (enable_piece ns w).2 = instances w /\
  heap (enable_piece ns w).2 = heap w.
Proof.
  unfold enable_piece. destruct ns as [|c rest]; [done|].
  destruct (Ascii.eqb c "-"); unfold mbind, M_bind, lift, modify;
    destruct (RegExp_new _); done.
Qed.

Lemma enable_pieces_frame (l : list str) :
  forall w,
    instances (forEach enable_piece l w).2 = instances w /\
    heap (forEach enable_piece l w).2 = heap w.
Proof.
  induction l as [|ns l IH]; intros w; [done|].
  cbn [forEach]. unfold mbind, M_bind.
  destruct (enable_piece_frame ns w) as [Hi Hh].
  destruct (enable_piece ns w) as [[[]|e|] w1]; simpl in *; [|done..].
  destruct (IH w1) as [Hi' Hh']. split; congruence.
Qed.

(** What a call of [enable] that returns leaves behind: the registry is
    the same, and each registered instance has the flag that [enabled]
    gives its namespace under the new rules. *)
Lemma enable_normal (v : Value) (w w' : World) :
  registry_ok w = true ->
  enable v w = (Normal tt, w') ->
  instances w' = instances w /\
  forall a, a ∈ instances w' ->
    exists d0, heap w !! a = Some d0 /\
               heap w' !! a = Some (with_enabled (enabled w' (d_namespace d0)) d0).
Proof.
  intros Hok. rewrite enable_unfold.
  match goal with |- context [forEach enable_piece ?l ?w0] =>
    destruct (enable_pieces_frame l w0) as [Hi Hh];
    destruct (forEach enable_piece l w0) as [[[]|e|] w1] end; [|done..].
  simpl in Hi, Hh. intros [= <-]. split; [done|].
  intros a Ha. change (a ∈ instances w1) in Ha.
  assert (a < length (heap w)) as Hlt.
  { unfold registry_ok in Hok. rewrite forallb_forall in Hok.
    apply Nat.ltb_lt, Hok, list_elem_of_In. by rewrite <- Hi. }
  destruct (lookup_lt_is_Some_2 _ _ Hlt) as [d0 Hd0].
  exists d0. split; [done|].
  change (refresh_heap w1 (instances w1) (heap w1) !! a =
          Some (with_enabled (enabled w1 (d_namespace d0)) d0)).
  rewrite refresh_heap_lookup, decide_True by done.
  rewrite Hh, Hd0. done.
Qed.

Lemma enable_piece_glob (token : str) (w : World) :
  token <> [] ->
  forallb glob_char token = true ->
  exists source,
    let re := MkRegExp source (glob_regex (token_body token).2) in
    enable_piece (replace_stars token) w =
    (Normal tt,
     if (token_body token).1 then with_skips (skips w ++ [re]) w
     else with_names (names w ++ [re]) w).
Proof.
  destruct token as [|c rest]; [done|]. intros _ Hall.
  pose proof Hall as Hall'. simpl in Hall'.
  apply andb_prop in Hall' as [Hc Hrest].
  unfold token_body. destruct (Ascii.eqb_spec c "-") as [->|Hne].
  - destruct (RegExp_new_glob rest Hrest) as [source E].
    exists source. simpl. change (flat_map _ rest) with (replace_stars rest).
    unfold mbind, M_bind, lift, modify. rewrite E. done.
  - destruct (RegExp_new_glob (c :: rest) Hall) as [source E].
    exists source. cbn [fst snd].
    assert (exists c' rest', replace_stars (c :: rest) = c' :: rest' /\
                             Ascii.eqb c' "-" = false) as (c' & rest' & Er & Ec').
    { apply glob_char_inv in Hc as [_ [->|[Hstar _]]].
      - by eexists _, _.
      - unfold replace_stars. simpl.
        apply Ascii.eqb_neq in Hstar. rewrite Hstar.
        eexists _, _. split; [done|]. by apply Ascii.eqb_neq. }
    rewrite Er in *. unfold enable_piece. rewrite Ec'.
    unfold mbind, M_bind, lift, modify. rewrite E. done.
Qed.

(** C3 (amended): for a non-empty token whose characters other than [*]
    are read by a pattern as themselves, [enable] returns and adds one
    rule, a deny rule over the remainder when the token starts with [-]
    and an allow rule over the token otherwise, and the rule accepts
    exactly the namespaces that match as a whole, character by character,
    [*] standing for any sequence of characters without a line terminator. *)
Theorem enable_glob_token (w : World) (token : str) :
  token <> [] ->
  forallb glob_char token = true ->
  exists re,
    (enable (VString token) w).1 = Normal tt /\
    (let w' := (enable (VString token) w).2 in
     if (token_body token).1
     then names w' = [] /\ skips w' = [re]
     else names w' = [re] /\ skips w' = []) /\
    forall ns,
      RegExp_test re ns = glob same_line (token_body token).2 ns.
Proof.
  intros Hne Hall.
  destruct (enable (VString token) w) as [c w'] eqn:Een.
  rewrite enable_unfold in Een. simpl (default _ _) in Een.
  rewrite split_separators_token in Een.
  2:{ clear Hne Een. induction token as [|x token IH]; simpl in *; [done|].
      apply andb_prop in Hall as [Hx Ht]. rewrite (IH Ht), andb_true_r.
      apply glob_char_inv in Hx as [-> _]. done. }
  cbn [map forEach] in Een. unfold mbind, M_bind in Een.
  match type of Een with context [enable_piece _ ?w0] =>
    destruct (enable_piece_glob token w0 Hne Hall) as [source E] end.
  cbv zeta in E. rewrite E in Een. injection Een as <- <-.
  exists (MkRegExp source (glob_regex (token_body token).2)).
  split; [done|]. split.
  - cbn [snd]. destruct (token_body token).1; done.
  - intros ns. apply test_glob_regex.
Qed.

Lemma enable_glob_token_witness :
  exists re,
    (enable (sel "-api:*:internal") example_world).1 = Normal tt /\
    (names (enable (sel "-api:*:internal") example_world).2 = [] /\
     skips (enable (sel "-api:*:internal") example_world).2 = [re]) /\
    forall ns, RegExp_test re ns = glob same_line (lit "api:*:internal") ns.
Proof.
  apply (enable_glob_token example_world (lit "-api:*:internal"));
    [discriminate | reflexivity].
Defined.

(** C3, as stated, fails: a token character that is pattern syntax is not
    matched literally ([a.b] accepts [axb]), and the wildcard does not
    span a line terminator. *)
Lemma enable_token_not_literal :
  (exists re,
     names (enable (sel "a.b") example_world).2 = [re] /\
     RegExp_test re (lit "axb") = true /\
     glob any_char (lit "a.b") (lit "axb") = false) /\
  (exists re,
     names (enable (sel "a*") example_world).2 = [re] /\
     RegExp_test re ("a" :: "010" :: ["b"]) = false /\
     glob any_char (lit "a*") ("a" :: "010" :: ["b"]) = true).
Proof. split; eexists; repeat split; reflexivity. Qed.

Lemma enable_empty (w : World) :
  enable (VString []) w =
  (Normal tt,
   let w1 := with_skips [] (with_names [] (with_env_DEBUG None w)) in
   with_heap (refresh_heap w1 (instances w) (heap w)) w1).
Proof. rewrite enable_unfold. reflexivity. Qed.

(** C4: [disable] always leaves both rule lists empty, but the string it
    returns does not compile back to the rules it replaced: after
    [enable("a*b")] it returns [a.*?b], and compiling that throws. *)
Theorem disable_round_trip_fails :
  (forall w, names (disable w).2 = [] /\ skips (disable w).2 = []) /\
  let w1 := (enable (sel "a*b") example_world).2 in
  enabled w1 (lit "ab") = true /\
  (disable w1).1 = Normal (lit "a.*?b") /\
  let w2 := (disable w1).2 in
  (enable (VString (lit "a.*?b")) w2).1 =
    Throw "SyntaxError: Nothing to repeat" /\
  enabled (enable (VString (lit "a.*?b")) w2).2 (lit "ab") = false.
Proof.
  split.
  - intros w. unfold disable, mbind, M_bind, get. rewrite enable_empty. done.
  - cbv zeta. repeat split; reflexivity.
Qed.

(** ** Instances *)

Section InstanceProperties.
Context `{Imports}.

(** C5: a call of an instance whose [enabled] flag is false returns at
    once and changes nothing: the clock is not read, no formatter and no
    output function is called, and the instance keeps its timestamps. *)
Theorem invoke_disabled_noop (w : World) (self : addr)
    (debug : DebugInstance) (args : list Value) :
  heap w !! self = Some debug ->
  d_enabled debug = false ->
  invoke self args w = (Normal tt, w) /\
  clock_reads (invoke self args w).2 = clock_reads w /\
  trace (invoke self args w).2 = trace w /\
  heap (invoke self args w).2 !! self = Some debug.
Proof.
  intros Hd He. unfold invoke. rewrite Hd, He. done.
Qed.

(** For contrast, a call of an enabled instance reads the clock once and
    ends with one call of the output function. *)
Lemma invoke_enabled_effects (w : World) (self : addr)
    (debug : DebugInstance) (args : list Value) :
  heap w !! self = Some debug ->
  d_enabled debug = true ->
  clock_reads (invoke self args w).2 = S (clock_reads w) /\
  exists calls line,
    trace (invoke self args w).2 =
    trace w ++ calls ++ [LoggerCall (d_log debug) line].
Proof.
  intros Hd He. unfold invoke. rewrite Hd, He. simpl.
  destruct (applyFormatters (formatters w) args) as [args' calls].
  split; [done|]. by eexists _, _.
Qed.

(** C9: [extend] on an instance with namespace [ns] returns a new
    instance, appended to the registry, whose namespace is [ns], the
    delimiter ([:] when omitted) and the sub-namespace; its [log] is the
    parent's, and its flag is [enabled] of the new namespace under the
    current rules, whatever the parent's flag. *)
Theorem extend_creates_child (w : World) (this : addr)
    (parent : DebugInstance) (subNamespace : str)
    (delimiter : option str) :
  heap w !! this = Some parent ->
  let newNamespace :=
    d_namespace parent ++ default [":"] delimiter ++ subNamespace in
  let a := length (heap w) in
  exists child w',
    extend this subNamespace delimiter w = (Normal a, w') /\
    heap w !! a = None /\
    heap w' !! a = Some child /\
    instances w' = instances w ++ [a] /\
    names w' = names w /\ skips w' = skips w /\
    d_namespace child = newNamespace /\
    d_log child = d_log parent /\
    d_enabled child = enabled w newNamespace.
Proof.
  intros Hp newNamespace a. unfold extend. rewrite Hp.
  unfold mbind, M_bind, createDebug, modify, mret, M_ret. cbn [heap with_heap with_instances].
  eexists _, _. split; [reflexivity|].
  split; [by apply lookup_ge_None_2|].
  split.
  - unfold a. cbn [heap with_heap].
    rewrite list_lookup_alter, decide_True by done.
    rewrite lookup_app_r, Nat.sub_diag by done. reflexivity.
  - done.
Qed.

(** What the calls other than [enable] and [disable] do to an instance
    that exists: its flag stays. *)
Lemma perform_keeps_enabled (c : call) (w : World) (a : addr)
    (d : DebugInstance) :
  heap w !! a = Some d ->
  exists d', heap (perform c w) !! a = Some d' /\
             d_enabled d' = d_enabled d.
Proof.
  intros Hd. pose proof (lookup_lt_Some _ _ _ Hd) as Hlt.
  destruct c as [ns|self args|this|this sub delim|ns]; simpl.
  - exists d. split; [|done]. by rewrite lookup_app_l.
  - unfold invoke. destruct (heap w !! self) as [debug|] eqn:Hs; [|by exists d].
    destruct (d_enabled debug) eqn:He; simpl; [|by exists d].
    destruct (applyFormatters (formatters w) args) as [args' calls]. simpl.
    destruct (decide (self = a)) as [->|Hne].
    + rewrite list_lookup_insert_eq by done.
      eexists. split; [done|]. simpl. congruence.
    + rewrite list_lookup_insert_ne by done. by exists d.
  - unfold destroy. destruct (list_find _ _) as [[i x]|]; by exists d.
  - unfold extend. destruct (heap w !! this) as [parent|]; [|by exists d].
    simpl. rewrite list_lookup_alter, decide_False by lia.
    rewrite lookup_app_l by done. by exists d.
  - by exists d.
Qed.

End InstanceProperties.

Lemma enabled_no_rules (w : World) (namespace : str) :
  names w = [] -> skips w = [] ->
  enabled w namespace = ends_with_star namespace.
Proof.
  intros Hn Hs. unfold enabled, enabled_run. rewrite Hn, Hs.
  by destruct (ends_with_star namespace).
Qed.

(** C6 (amended): after a call of [enable] that returns, every instance
    of the registry has the flag that [enabled] gives its namespace under
    the new rules; and no call other than [enable], or [disable] which
    calls it, changes the flag of an instance that exists. *)
Theorem enable_refreshes_registry `{Imports} :
  (forall v w w',
     registry_ok w = true ->
     enable v w = (Normal tt, w') ->
     forall a, a ∈ instances w' ->
       exists d, heap w' !! a = Some d /\
                 d_enabled d = enabled w' (d_namespace d)) /\
  (forall c w a d,
     heap w !! a = Some d ->
     exists d', heap (perform c w) !! a = Some d' /\
                d_enabled d' = d_enabled d).
Proof.
  split.
  - intros v w w' Hok Hen a Ha.
    destruct (enable_normal v w w' Hok Hen) as [_ Hall].
    destruct (Hall a Ha) as (d0 & _ & Hd). eexists. split; [exact Hd|done].
  - intros c w a d. apply perform_keeps_enabled.
Qed.

Lemma enable_refreshes_registry_witness :
  let w := (createDebug (lit "api:internal")
              (createDebug (lit "api:public") example_world).2).2 in
  let w' := (enable (sel "api:*,-api:internal") w).2 in
  (forall a, a ∈ instances w' ->
     exists d, heap w' !! a = Some d /\
               d_enabled d = enabled w' (d_namespace d)) /\
  (exists d', heap (perform (Invoke 0 [sel "hello"]) w') !! 0 = Some d' /\
              d_enabled d' = true).
Proof.
  cbv zeta. split.
  - apply (proj1 enable_refreshes_registry (sel "api:*,-api:internal")
             (createDebug (lit "api:internal")
                (createDebug (lit "api:public") example_world).2).2
             (enable (sel "api:*,-api:internal")
                (createDebug (lit "api:internal")
                   (createDebug (lit "api:public") example_world).2).2).2);
      vm_compute; reflexivity.
  - apply (proj2 enable_refreshes_registry (Invoke 0 [sel "hello"])
             (enable (sel "api:*,-api:internal")
                (createDebug (lit "api:internal")
                   (createDebug (lit "api:public") example_world).2).2).2
             0
             (MkInstance (lit "api:public") true 4 None None None None)).
    vm_compute; reflexivity.
Defined.

(** C6, as stated, fails for a call of [enable] that throws: the rule
    lists were already reset, the loop over the registry is not reached,
    and a registered instance keeps a flag that [enabled] no longer
    gives. *)
Lemma enable_throw_leaves_stale_flag :
  let w := (createDebug (lit "a") (enable (sel "*") example_world).2).2 in
  let w' := (enable (sel "(") w).2 in
  (enable (sel "(") w).1 = Throw "SyntaxError: Unterminated group" /\
  exists a d,
    a ∈ instances w' /\ heap w' !! a = Some d /\
    d_enabled d = true /\ enabled w' (d_namespace d) = false.
Proof.
  cbv zeta. split; [reflexivity|].
  exists 0, (MkInstance (lit "a") true (selectColor (lit "a")) None None None None).
  split; [apply list_elem_of_here|]. repeat split; reflexivity.
Qed.

(** C10 (amended): [enable] of a value that is not a string returns, and
    leaves what [enable("")] leaves except for what is saved as [DEBUG]: a
    truthy value is saved, where [enable("")] deletes [DEBUG]; for a falsy
    value, such as [undefined], the two calls leave the same state.  Both
    rule lists are empty, and every registered instance is enabled exactly
    when its namespace ends in [*]. *)
Theorem enable_non_string (v : Value) (w : World) :
  as_string v = None ->
  registry_ok w = true ->
  enable v w =
    (Normal tt,
     with_env_DEBUG (if truthy v then Some v else None)
                    (enable (VString []) w).2) /\
  (truthy v = false -> enable v w = enable (VString []) w) /\
  names (enable v w).2 = [] /\
  skips (enable v w).2 = [] /\
  forall a, a ∈ instances (enable v w).2 ->
    exists d, heap (enable v w).2 !! a = Some d /\
              d_enabled d = ends_with_star (d_namespace d).
Proof.
  intros Hv Hok.
  assert (enable v w =
          (Normal tt,
           with_env_DEBUG (if truthy v then Some v else None)
                          (enable (VString []) w).2)) as E.
  { rewrite !enable_unfold, Hv. reflexivity. }
  split; [exact E|].
  split.
  { intros Hf. rewrite E, Hf, enable_empty. reflexivity. }
  assert (names (enable v w).2 = [] /\ skips (enable v w).2 = []) as [Hn Hs].
  { rewrite E, enable_empty. done. }
  split; [exact Hn|]. split; [exact Hs|].
  intros a Ha.
  destruct (enable v w) as [c w'] eqn:Een. injection E as -> E.
  destruct (enable_normal v w w' Hok Een) as [_ Hall].
  destruct (Hall a Ha) as (d0 & _ & Hd).
  eexists. split; [exact Hd|]. simpl. by apply enabled_no_rules.
Qed.

Lemma enable_non_string_witness :
  let w := (createDebug (lit "lib:*")
              (createDebug (lit "app") (enable (sel "*") example_world).2).2).2 in
  enable VUndefined w =
    (Normal tt,
     with_env_DEBUG (if truthy VUndefined then Some VUndefined else None)
                    (enable (VString []) w).2) /\
  (truthy VUndefined = false ->
   enable VUndefined w = enable (VString []) w) /\
  names (enable VUndefined w).2 = [] /\
  skips (enable VUndefined w).2 = [] /\
  forall a, a ∈ instances (enable VUndefined w).2 ->
    exists d, heap (enable VUndefined w).2 !! a = Some d /\
              d_enabled d = ends_with_star (d_namespace d).
Proof.
  cbv zeta.
  apply (enable_non_string VUndefined
           (createDebug (lit "lib:*")
              (createDebug (lit "app")
                 (enable (sel "*") example_world).2).2).2);
    vm_compute; reflexivity.
Defined.

(** C10, as stated, fails for a truthy value that is not a string: it is
    saved as [DEBUG], which [enable("")] deletes, so the two calls do not
    leave the same state. *)
Lemma enable_truthy_non_string_differs :
  env_DEBUG (enable (VBool true) example_world).2 = Some (VBool true) /\
  env_DEBUG (enable (VString []) example_world).2 = None /\
  enable (VBool true) example_world <> enable (VString []) example_world.
Proof.
  split; [reflexivity|]. split; [reflexivity|].
  intros E. apply (f_equal (fun r => env_DEBUG r.2)) in E. discriminate E.
Qed.

Lemma invoke_disabled_noop_witness :
  let w := (createDebug (lit "app") example_world).2 in
  let debug := MkInstance (lit "app") false 4 None None None None in
  let args := [sel "hello %s"; sel "you"] in
  invoke 0 args w = (Normal tt, w) /\
  clock_reads (invoke 0 args w).2 = clock_reads w /\
  trace (invoke 0 args w).2 = trace w /\
  heap (invoke 0 args w).2 !! 0 = Some debug.
Proof.
  cbv zeta.
  apply (invoke_disabled_noop
           (createDebug (lit "app") example_world).2 0
           (MkInstance (lit "app") false 4 None None None None)
           [sel "hello %s"; sel "you"]);
    vm_compute; reflexivity.
Defined.

Lemma extend_creates_child_witness :
  let w := (createDebug (lit "server")
              (enable (sel "server:*") example_world).2).2 in
  let parent := MkInstance (lit "server") false 4 None None None None in
  exists child w',
    extend 0 (lit "http") None w = (Normal (length (heap w)), w') /\
    heap w !! length (heap w) = None /\
    heap w' !! length (heap w) = Some child /\
    instances w' = instances w ++ [length (heap w)] /\
    names w' = names w /\ skips w' = skips w /\
    d_namespace child =
      d_namespace parent ++ default [":"] None ++ lit "http" /\
    d_log child = d_log parent /\
    d_enabled child =
      enabled w (d_namespace parent ++ default [":"] None ++ lit "http").
Proof.
  cbv zeta.
  apply (extend_creates_child
           (createDebug (lit "server")
              (enable (sel "server:*") example_world).2).2
           0 (MkInstance (lit "server") false 4 None None None None)
           (lit "http") None).
  vm_compute; reflexivity.
Defined.

(** ** The format pre-pass *)

Lemma is_letter_not_percent (c : ascii) :
  is_letter c = true -> Ascii.eqb c "%" = false.
Proof.
  intros Hl. destruct (Ascii.eqb_spec c "%") as [->|]; [|done].
  vm_compute in Hl. discriminate.
Qed.

(** The callback works on the array in place; the cursor of [expand]
    describes it: [pre] are the arguments that directives without a
    formatter have passed over, [rest] those no directive has reached. *)
Lemma replace_matches_expand (fm : gmap ascii Formatter) (ps : list piece) :
  forall (a0 : Value) (pre rest : list Value) (i : nat) (cs : list Event),
    length pre <= i ->
    (length pre < i -> rest = []) ->
    exists j,
      replace_matches fm ps (MkFmt i (a0 :: pre ++ rest) cs) =
      (let '(out, kept, calls) := expand fm ps rest in
       (out, MkFmt j (a0 :: pre ++ kept) (cs ++ calls))).
Proof.
  induction ps as [|p ps IH]; intros a0 pre rest i cs Hle Hlt.
  - exists i. simpl. by rewrite app_nil_r.
  - destruct p as [c|letter].
    + destruct (IH a0 pre rest i cs Hle Hlt) as [j E].
      exists j. cbn [replace_matches expand]. rewrite E.
      by destruct (expand fm ps rest) as [[out kept] calls].
    + cbn [replace_matches expand]. unfold on_match.
      destruct (Ascii.eqb letter "%") eqn:Ep.
      * destruct (IH a0 pre rest i cs Hle Hlt) as [j E].
        exists j. rewrite E.
        by destruct (expand fm ps rest) as [[out kept] calls].
      * cbn [fs_index fs_args fs_calls].
        destruct (fm !! letter) as [formatter|] eqn:Ef.
        -- assert (default VUndefined ((a0 :: pre ++ rest) !! S i) =
                   default VUndefined (head rest)) as Ev.
           { change ((a0 :: pre ++ rest) !! S i) with ((pre ++ rest) !! i).
             destruct (decide (length pre < i)) as [Hl|Hl].
             - rewrite (Hlt Hl), app_nil_r, lookup_ge_None_2 by lia. done.
             - assert (i = length pre) as -> by lia.
               rewrite lookup_app_r, Nat.sub_diag by done. by destruct rest. }
           assert (delete (S i) (a0 :: pre ++ rest) = a0 :: pre ++ tail rest)
             as Ed.
           { change (delete (S i) (a0 :: pre ++ rest))
               with (a0 :: delete i (pre ++ rest)). f_equal.
             destruct (decide (length pre < i)) as [Hl|Hl].
             - rewrite (Hlt Hl). simpl. rewrite app_nil_r.
               rewrite delete_take_drop, take_ge, drop_ge by lia.
               apply app_nil_r.
             - assert (i = length pre) as -> by lia.
               destruct rest as [|x rest]; [|apply delete_middle].
               simpl. rewrite app_nil_r.
               rewrite delete_take_drop, take_ge, drop_ge by lia.
               apply app_nil_r. }
           rewrite Ev, Ed. replace (S i - 1) with i by lia.
           destruct (IH a0 pre (tail rest) i
                       (cs ++ [FormatterCall letter (default VUndefined (head rest))])
                       Hle) as [j E].
           { intros Hl. by rewrite (Hlt Hl). }
           exists j. rewrite E.
           destruct (expand fm ps (tail rest)) as [[out kept] calls].
           by rewrite <- app_assoc.
        -- destruct (IH a0 (pre ++ option_list (head rest)) (tail rest) (S i) cs)
             as [j E].
           { rewrite length_app. destruct rest; simpl; lia. }
           { rewrite length_app. destruct rest as [|x rest]; simpl; [done|].
             intros Hl. assert (length pre < i) as Hl' by lia.
             by specialize (Hlt Hl'). }
           exists j.
           replace (a0 :: pre ++ rest)
             with (a0 :: (pre ++ option_list (head rest)) ++ tail rest)
             by (rewrite <- app_assoc; by destruct rest).
           rewrite E.
           destruct (expand fm ps (tail rest)) as [[out kept] calls].
           by rewrite <- app_assoc.
Qed.

Lemma applyFormatters_expand (fm : gmap ascii Formatter) (tpl : str)
    (rest : list Value) :
  applyFormatters fm (VString tpl :: rest) =
  (let '(out, kept, calls) := expand fm (scan tpl) rest in
   (VString out :: kept, calls)).
Proof.
  destruct (replace_matches_expand fm (scan tpl) (VString tpl) [] rest 0 [])
    as [j E]; [done|simpl; lia|].
  change (applyFormatters fm (VString tpl :: rest))
    with (let '(out, st) :=
            replace_matches fm (scan tpl) (MkFmt 0 (VString tpl :: [] ++ rest) [])
          in (<[0 := VString out]> (fs_args st), fs_calls st)).
  rewrite E.
  by destruct (expand fm (scan tpl) rest) as [[out kept] calls].
Qed.

Lemma expand_app (fm : gmap ascii Formatter) (ps1 ps2 : list piece) :
  forall rest,
    expand fm (ps1 ++ ps2) rest =
    (let '(out1, kept1, calls1) :=
       expand fm ps1 (take (consumed ps1) rest) in
     let '(out2, kept2, calls2) :=
       expand fm ps2 (drop (consumed ps1) rest) in
     (out1 ++ out2, kept1 ++ kept2, calls1 ++ calls2)).
Proof.
  induction ps1 as [|p ps1 IH]; intros rest.
  - cbn [app consumed expand]. rewrite take_0, drop_0.
    by destruct (expand fm ps2 rest) as [[out kept] calls].
  - destruct p as [c|letter]; cbn [app consumed expand].
    + rewrite IH.
      destruct (expand fm ps1 _) as [[out1 kept1] calls1].
      by destruct (expand fm ps2 _) as [[out2 kept2] calls2].
    + destruct (Ascii.eqb letter "%").
      * rewrite IH.
        destruct (expand fm ps1 _) as [[out1 kept1] calls1].
        by destruct (expand fm ps2 _) as [[out2 kept2] calls2].
      * rewrite IH.
        assert (tail (take (S (consumed ps1)) rest) =
                take (consumed ps1) (tail rest)) as ->
          by (destruct rest; simpl; rewrite ?take_nil; done).
        assert (drop (S (consumed ps1)) rest =
                drop (consumed ps1) (tail rest)) as ->
          by (destruct rest; simpl; rewrite ?drop_nil; done).
        assert (head (take (S (consumed ps1)) rest) = head rest) as ->
          by (by destruct rest).
        destruct (expand fm ps1 _) as [[out1 kept1] calls1].
        destruct (expand fm ps2 _) as [[out2 kept2] calls2].
        destruct (fm !! letter); [by rewrite <- app_assoc|].
        by rewrite <- app_assoc.
Qed.

Lemma applyFormatters_prepare (fm : gmap ascii Formatter)
    (args : list Value) :
  applyFormatters fm args = applyFormatters fm (prepare_args args).
Proof.
  unfold applyFormatters.
  assert (prepare_args (prepare_args args) = prepare_args args) as ->; [|done].
  destruct args as [|[] rest]; done.
Qed.

Lemma head_tail_drop (k : nat) (rest : list Value) :
  head (drop k rest) = rest !! k /\ tail (drop k rest) = drop (S k) rest.
Proof.
  revert rest. induction k as [|k IH]; intros [|x rest]; simpl; done.
Qed.

(** C7: at an occurrence of [%letter] whose letter has a formatter, the
    formatter is called with the positional argument of that occurrence
    (the one after those taken by the directives before it), what it
    returns stands in the template where the directive stood, and that
    argument is not in the sequence returned: the arguments before it and
    after it are those the rest of the template leaves. *)
Theorem applyFormatters_registered (fm : gmap ascii Formatter)
    (args : list Value) (tpl : str) (rest : list Value)
    (ps1 ps2 : list piece) (letter : ascii) (formatter : Formatter) :
  prepare_args args = VString tpl :: rest ->
  scan tpl = ps1 ++ Directive letter :: ps2 ->
  is_letter letter = true ->
  fm !! letter = Some formatter ->
  let k := consumed ps1 in
  let val := default VUndefined (rest !! k) in
  applyFormatters fm args =
  (let '(out1, kept1, calls1) := expand fm ps1 (take k rest) in
   let '(out2, kept2, calls2) := expand fm ps2 (drop (S k) rest) in
   (VString (out1 ++ formatter val ++ out2) :: kept1 ++ kept2,
    calls1 ++ FormatterCall letter val :: calls2)).
Proof.
  intros Hargs Hscan Hl Hf k val.
  rewrite applyFormatters_prepare, Hargs, applyFormatters_expand, Hscan.
  rewrite expand_app. fold k.
  destruct (expand fm ps1 (take k rest)) as [[out1 kept1] calls1].
  cbn [expand]. rewrite (is_letter_not_percent _ Hl).
  destruct (head_tail_drop k rest) as [-> ->]. fold val.
  destruct (expand fm ps2 (drop (S k) rest)) as [[out2 kept2] calls2].
  match goal with |- context [match ?x with Some _ => _ | None => _ end] =>
    replace x with (Some formatter) by (symmetry; exact Hf) end.
  done.
Qed.

Lemma unscan_scan (s : str) :
  flat_map piece_text (scan s) = s /\
  forall c, flat_map piece_text (scan (c :: s)) = c :: s.
Proof.
  induction s as [|x s [IH1 IH2]]; [done|].
  split; [apply IH2|]. intros c.
  change (scan (c :: x :: s))
    with (if Ascii.eqb c "%" && (is_letter x || Ascii.eqb x "%")
          then Directive x :: scan s else Text c :: scan (x :: s)).
  destruct (Ascii.eqb c "%" && (is_letter x || Ascii.eqb x "%")) eqn:E;
    cbn [flat_map piece_text app].
  - apply andb_prop in E as [->%Ascii.eqb_eq _]. by rewrite IH1.
  - by rewrite (IH2 x).
Qed.

Lemma expand_passes (fm : gmap ascii Formatter) (ps : list piece) :
  forallb (passes fm) ps = true ->
  forall rest, expand fm ps rest = (flat_map piece_text ps, rest, []).
Proof.
  induction ps as [|p ps IH]; intros Hall rest; [done|].
  simpl in Hall. apply andb_prop in Hall as [Hp Hps].
  destruct p as [c|letter]; cbn [expand flat_map piece_text].
  - by rewrite (IH Hps).
  - simpl in Hp. destruct (Ascii.eqb_spec letter "%") as [->|Hne].
    + by rewrite (IH Hps).
    + rewrite (IH Hps). simpl in Hp.
      destruct (fm !! letter); [done|]. by destruct rest.
Qed.

(** C8: at an occurrence of [%%], or of [%letter] whose letter has no
    formatter, the two characters stay in the template and no formatter
    is called.  [%%] takes no argument: the directives after it go on from
    the same argument.  A letter without a formatter leaves its argument
    in the sequence, at its place.  A template in which no directive has
    a formatter comes back, with all its arguments, as it was. *)
Theorem applyFormatters_passthrough (fm : gmap ascii Formatter)
    (args : list Value) (tpl : str) (rest : list Value)
    (ps1 ps2 : list piece) (letter : ascii) :
  prepare_args args = VString tpl :: rest ->
  scan tpl = ps1 ++ Directive letter :: ps2 ->
  passes fm (Directive letter) = true ->
  let k := consumed ps1 in
  let own := if Ascii.eqb letter "%" then [] else option_list (rest !! k) in
  let next := if Ascii.eqb letter "%" then k else S k in
  applyFormatters fm args =
    (let '(out1, kept1, calls1) := expand fm ps1 (take k rest) in
     let '(out2, kept2, calls2) := expand fm ps2 (drop next rest) in
     (VString (out1 ++ "%" :: letter :: out2) :: kept1 ++ own ++ kept2,
      calls1 ++ calls2)) /\
  (forallb (passes fm) (scan tpl) = true ->
   applyFormatters fm args = (VString tpl :: rest, [])).
Proof.
  intros Hargs Hscan Hp k own next.
  rewrite applyFormatters_prepare, Hargs, applyFormatters_expand.
  split.
  - rewrite Hscan, expand_app. fold k.
    destruct (expand fm ps1 (take k rest)) as [[out1 kept1] calls1].
    cbn [expand]. unfold own, next. cbn [passes] in Hp.
    destruct (Ascii.eqb_spec letter "%") as [->|Hne].
    + by destruct (expand fm ps2 (drop k rest)) as [[out2 kept2] calls2].
    + destruct (head_tail_drop k rest) as [-> ->].
      destruct (expand fm ps2 (drop (S k) rest)) as [[out2 kept2] calls2].
      cbn [orb] in Hp. by destruct (fm !! letter).
  - intros Hall. rewrite (expand_passes fm _ Hall).
    by rewrite (proj1 (unscan_scan tpl)).
Qed.

Lemma applyFormatters_registered_witness :
  let args := [sel "%s: %O and %q"; sel "a"; VNumber 7; VNull] in
  applyFormatters example_formatters args =
  (let '(out1, kept1, calls1) :=
     expand example_formatters (scan (lit "%s: ")) (take 1 [sel "a"; VNumber 7; VNull]) in
   let '(out2, kept2, calls2) :=
     expand example_formatters (scan (lit " and %q")) (drop 2 [sel "a"; VNumber 7; VNull]) in
   (VString (out1 ++ ("<" :: show (default VUndefined ([sel "a"; VNumber 7; VNull] !! 1)) ++ [">"]) ++ out2)
      :: kept1 ++ kept2,
    calls1 ++ FormatterCall "O" (default VUndefined ([sel "a"; VNumber 7; VNull] !! 1)) :: calls2)).
Proof.
  cbv zeta.
  apply (applyFormatters_registered example_formatters
           [sel "%s: %O and %q"; sel "a"; VNumber 7; VNull]
           (lit "%s: %O and %q") [sel "a"; VNumber 7; VNull]
           (scan (lit "%s: ")) (scan (lit " and %q")) "O"
           (fun v => "<" :: show v ++ [">"]));
    vm_compute; reflexivity.
Defined.

Lemma applyFormatters_passthrough_witness :
  let rest := [VNumber 3; sel "x"] in
  let args := sel "100%% of %q" :: rest in
  applyFormatters example_formatters args =
    (let '(out1, kept1, calls1) :=
       expand example_formatters (scan (lit "100%% of ")) (take 0 rest) in
     let '(out2, kept2, calls2) :=
       expand example_formatters [] (drop 1 rest) in
     (VString (out1 ++ "%" :: "q" :: out2)
        :: kept1 ++ option_list (rest !! 0) ++ kept2,
      calls1 ++ calls2)) /\
  applyFormatters example_formatters args = (sel "100%% of %q" :: rest, []).
Proof.
  cbv zeta.
  destruct (applyFormatters_passthrough example_formatters
              (sel "100%% of %q" :: [VNumber 3; sel "x"])
              (lit "100%% of %q") [VNumber 3; sel "x"]
              (scan (lit "100%% of ")) [] "q") as [H1 H2];
    [vm_compute; reflexivity..|].
  split; [exact H1|]. apply H2. vm_compute; reflexivity.
Defined.

(** ** The registry stays well formed *)

Lemma registry_ok_spec (w : World) :
  registry_ok w = true <->
  forall a, a ∈ instances w -> a < length (heap w).
Proof.
  unfold registry_ok. rewrite forallb_forall. split.
  - intros Hall a Ha. by apply Nat.ltb_lt, Hall, list_elem_of_In.
  - intros Hall a Ha. by apply Nat.ltb_lt, Hall, list_elem_of_In.
Qed.

Lemma refresh_heap_length (w : World) (l : list addr) :
  forall h, length (refresh_heap w l h) = length h.
Proof.
  induction l as [|a l IH]; intros h; [done|].
  change (refresh_heap w (a :: l) h)
    with (refresh_heap w l
            (alter (fun d => with_enabled (enabled w (d_namespace d)) d) a h)).
  by rewrite IH, length_alter.
Qed.

Lemma registry_ok_initial (DEBUG : option Value) (clk : nat -> Z) :
  registry_ok (initial DEBUG clk) = true.
Proof. reflexivity. Qed.

Lemma registry_ok_enable (v : Value) (w : World) :
  registry_ok w = true -> registry_ok (enable v w).2 = true.
Proof.
  rewrite !registry_ok_spec. intros Hok. rewrite enable_unfold.
  match goal with |- context [forEach enable_piece ?l ?w0] =>
    destruct (enable_pieces_frame l w0) as [Hi Hh];
    destruct (forEach enable_piece l w0) as [[[]|e|] w1] end;
    simpl in Hi, Hh; cbn [snd].
  - intros a Ha. change (a ∈ instances w1) in Ha.
    change (a < length (refresh_heap w1 (instances w1) (heap w1))).
    rewrite refresh_heap_length, Hh. apply Hok. by rewrite <- Hi.
  - rewrite Hi, Hh. exact Hok.
  - rewrite Hi, Hh. exact Hok.
Qed.

Lemma registry_ok_disable (w : World) :
  registry_ok w = true -> registry_ok (disable w).2 = true.
Proof.
  intros Hok. unfold disable, mbind, M_bind, get.
  pose proof (registry_ok_enable (VString []) w Hok) as Hen.
  by destruct (enable (VString []) w) as [[[]|e|] w'].
Qed.

Lemma registry_ok_perform `{Imports} (c : call) (w : World) :
  registry_ok w = true -> registry_ok (perform c w) = true.
Proof.
  rewrite !registry_ok_spec. intros Hok.
  destruct c as [ns|self args|this|this sub delim|ns]; simpl.
  - intros a [Ha| ->%list_elem_of_singleton]%elem_of_app;
      rewrite length_app; simpl; [|lia].
    specialize (Hok a Ha). lia.
  - unfold invoke. destruct (heap w !! self) as [debug|]; [|done].
    destruct (d_enabled debug); simpl; [|done].
    destruct (applyFormatters (formatters w) args) as [args' calls]. simpl.
    intros a Ha. rewrite length_insert. by apply Hok.
  - unfold destroy. destruct (list_find _ _) as [[i x]|]; [|done]. simpl.
    intros a Ha. by apply Hok, (list_elem_of_delete_inv _ i).
  - unfold extend. destruct (heap w !! this) as [parent|]; [|done]. simpl.
    intros a [Ha| ->%list_elem_of_singleton]%elem_of_app;
      rewrite length_alter, length_app; simpl; [|lia].
    specialize (Hok a Ha). lia.
  - done.
Qed.

(** With no [DEBUG] in the environment the module loads with no rule. *)
Lemma load_absent (clk : nat -> Z) :
  load None clk = (Normal tt, initial None clk).
Proof. reflexivity. Qed.
(** * Further properties *)

(** ** Enablement and the rule lists *)

Lemma enabled_formula (w : World) (namespace : str) :
  enabled w namespace =
  ends_with_star namespace ||
  negb (existsb (fun re => RegExp_test re namespace) (skips w)) &&
  existsb (fun re => RegExp_test re namespace) (names w).
Proof.
  unfold enabled, enabled_run. rewrite <- !first_accepting_hit.
  destruct (ends_with_star namespace); [done|].
  destruct (first_accepting (skips w) namespace) as [ts hs].
  destruct hs; [done|].
  by destruct (first_accepting (names w) namespace) as [tn hn].
Qed.

Lemma existsb_Permutation {A : Type} (f : A -> bool) (l1 l2 : list A) :
  l1 ≡ₚ l2 -> existsb f l1 = existsb f l2.
Proof.
  induction 1 as [|x l1 l2 _ IH|x y l|l1 l2 l3 _ IH1 _ IH2]; simpl.
  - done.
  - by rewrite IH.
  - by destruct (f x), (f y).
  - by rewrite IH1.
Qed.

(** X1: the answer of [enabled] does not depend on the order of the
    rules inside the allow list or inside the deny list. *)
Theorem enabled_rule_order (w1 w2 : World) (namespace : str) :
  names w1 ≡ₚ names w2 ->
  skips w1 ≡ₚ skips w2 ->
  enabled w1 namespace = enabled w2 namespace.
Proof.
  intros Hn Hs. rewrite !enabled_formula.
  by rewrite (existsb_Permutation _ _ _ Hn), (existsb_Permutation _ _ _ Hs).
Qed.

Lemma enabled_rule_order_witness :
  let w1 := (enable (sel "a:*,b,-a:x,-c*") example_world).2 in
  let w2 := (enable (sel "b,-c*,a:*,-a:x") example_world).2 in
  enabled w1 (lit "a:y") = enabled w2 (lit "a:y").
Proof.
  cbv zeta.
  apply (enabled_rule_order
           (enable (sel "a:*,b,-a:x,-c*") example_world).2
           (enable (sel "b,-c*,a:*,-a:x") example_world).2 (lit "a:y")).
  - vm_compute. apply perm_swap.
  - vm_compute. apply perm_swap.
Defined.

(** Compiling pieces only reads and extends the rule lists: started from
    longer lists it appends the same rules and ends the same way. *)
Lemma enable_piece_offset (ns : str) (w w0 : World) (N S : list RegExp) :
  names w = N ++ names w0 -> skips w = S ++ skips w0 ->
  (enable_piece ns w).1 = (enable_piece ns w0).1 /\
  names (enable_piece ns w).2 = N ++ names (enable_piece ns w0).2 /\
  skips (enable_piece ns w).2 = S ++ skips (enable_piece ns w0).2.
Proof.
  intros Hn Hs. unfold enable_piece. destruct ns as [|c rest]; [done|].
  destruct (Ascii.eqb c "-"); unfold mbind, M_bind, lift, modify;
    destruct (RegExp_new _); simpl; rewrite ?Hn, ?Hs, <- ?app_assoc; done.
Qed.

Lemma enable_pieces_offset (l : list str) :
  forall (w w0 : World) (N S : list RegExp),
    names w = N ++ names w0 -> skips w = S ++ skips w0 ->
    (forEach enable_piece l w).1 = (forEach enable_piece l w0).1 /\
    names (forEach enable_piece l w).2 =
      N ++ names (forEach enable_piece l w0).2 /\
    skips (forEach enable_piece l w).2 =
      S ++ skips (forEach enable_piece l w0).2.
Proof.
  induction l as [|ns l IH]; intros w w0 N S Hn Hs; [done|].
  cbn [forEach]. unfold mbind, M_bind.
  destruct (enable_piece_offset ns w w0 N S Hn Hs) as (Ho & Hn' & Hs').
  destruct (enable_piece ns w) as [[[]|e|] w'],
           (enable_piece ns w0) as [[[]|e0|] w0']; simpl in *;
    try discriminate; try done.
  by apply IH.
Qed.

Lemma enable_pieces_app (l1 l2 : list str) (w : World) :
  forEach enable_piece (l1 ++ l2) w =
  match forEach enable_piece l1 w with
  | (Normal _, w1) => forEach enable_piece l2 w1
  | (Throw e, w1) => (Throw e, w1)
  | (Unsupported, w1) => (Unsupported, w1)
  end.
Proof.
  revert w. induction l1 as [|ns l1 IH]; intros w; [done|].
  cbn [app forEach]. unfold mbind, M_bind.
  destruct (enable_piece ns w) as [[[]|e|] w1]; [apply IH|done..].
Qed.

(** The rule lists and the outcome of [enable], from the pieces. *)
Lemma enable_rules (v : Value) (w : World) :
  let r := forEach enable_piece
             (map replace_stars (split_separators (default [] (as_string v))))
             (with_skips [] (with_names []
                (with_env_DEBUG (if truthy v then Some v else None) w))) in
  (enable v w).1 = match r.1 with Normal _ => Normal tt | c => c end /\
  names (enable v w).2 = names r.2 /\
  skips (enable v w).2 = skips r.2 /\
  env_DEBUG (enable v w).2 = env_DEBUG r.2 /\
  instances (enable v w).2 = instances r.2.
Proof.
  cbv zeta. rewrite enable_unfold.
  by destruct (forEach enable_piece _ _) as [[[]|e|] w1].
Qed.

Lemma enable_piece_env (ns : str) (w : World) :
  env_DEBUG (enable_piece ns w).2 = env_DEBUG w.
Proof.
  unfold enable_piece. destruct ns as [|c rest]; [done|].
  destruct (Ascii.eqb c "-"); unfold mbind, M_bind, lift, modify;
    destruct (RegExp_new _); done.
Qed.

Lemma enable_pieces_env (l : list str) :
  forall w, env_DEBUG (forEach enable_piece l w).2 = env_DEBUG w.
Proof.
  induction l as [|ns l IH]; intros w; [done|].
  cbn [forEach]. unfold mbind, M_bind.
  pose proof (enable_piece_env ns w) as He.
  destruct (enable_piece ns w) as [[[]|e|] w1]; simpl in *; [|done..].
  by rewrite IH.
Qed.

(** X2: [enable] starts from empty rule lists: whether it returns, and
    the rules it leaves, depend on its argument only, not on the rules in
    force before; and the argument is saved as [DEBUG] when it is truthy,
    [DEBUG] being deleted otherwise, before anything can throw. *)
Theorem enable_replaces_rules (v : Value) (w1 w2 : World) :
  (enable v w1).1 = (enable v w2).1 /\
  names (enable v w1).2 = names (enable v w2).2 /\
  skips (enable v w1).2 = skips (enable v w2).2 /\
  env_DEBUG (enable v w1).2 = (if truthy v then Some v else None).
Proof.
  destruct (enable_rules v w1) as (Ho1 & Hn1 & Hs1 & He1 & _).
  destruct (enable_rules v w2) as (Ho2 & Hn2 & Hs2 & _ & _).
  rewrite Ho1, Ho2, Hn1, Hn2, Hs1, Hs2, He1, enable_pieces_env.
  match goal with |- context [forEach enable_piece ?l (with_skips [] (with_names [] ?a))] =>
    match goal with |- context [forEach enable_piece l (with_skips [] (with_names [] ?b))] =>
      lazymatch a with b => fail | _ =>
      destruct (enable_pieces_offset l
                  (with_skips [] (with_names [] a))
                  (with_skips [] (with_names [] b)) [] [] eq_refl eq_refl)
        as (Ho & Hn & Hs) end end end.
  rewrite Ho, Hn, Hs. done.
Qed.

(** ** Selectors as token lists *)

Lemma split_separators_cons_sep (c : ascii) (s : str) :
  is_separator c = true ->
  exists tl, split_separators (c :: s) = [] :: tl /\
             List.filter (fun t => match t with [] => false | _ :: _ => true end) tl
             = selector_tokens s.
Proof.
  intros Hc. revert c Hc. induction s as [|x s IH]; intros c Hc.
  - exists [[]]. simpl. by rewrite Hc.
  - remember (x :: s) as s' eqn:Es. cbn [split_separators]. rewrite Hc.
    subst s'. cbv beta iota.
    destruct (is_separator x) eqn:Hx.
    + destruct (IH x Hx) as (tl & E & Hf). exists tl. split; [done|].
      unfold selector_tokens. by rewrite E.
    + by eexists.
Qed.

Lemma split_separators_cons_plain (x : ascii) (s : str) :
  is_separator x = false ->
  exists hd tl, split_separators s = hd :: tl /\
                split_separators (x :: s) = (x :: hd) :: tl.
Proof.
  intros Hx.
  assert (exists hd tl, split_separators s = hd :: tl) as (hd & tl & E).
  { destruct s as [|c s]; [by eexists _, _|].
    destruct (is_separator c) eqn:Hc.
    - destruct (split_separators_cons_sep c s Hc) as (tl & -> & _).
      by eexists _, _.
    - cbn [split_separators]. rewrite Hc.
      destruct (split_separators s); by eexists _, _. }
  exists hd, tl. split; [done|].
  remember s as s' eqn:Es in |- *. cbn [split_separators]. rewrite Hx.
  subst s'. by rewrite E.
Qed.

Lemma selector_tokens_cons_sep (c : ascii) (s : str) :
  is_separator c = true -> selector_tokens (c :: s) = selector_tokens s.
Proof.
  intros Hc. destruct (split_separators_cons_sep c s Hc) as (tl & E & Hf).
  unfold selector_tokens at 1. by rewrite E.
Qed.

Lemma split_separators_app_sep (c : ascii) (s2 : str) :
  is_separator c = true ->
  forall s1,
  exists hd tl tl',
    split_separators s1 = hd :: tl /\
    split_separators (s1 ++ c :: s2) = hd :: tl' /\
    List.filter (fun t => match t with [] => false | _ :: _ => true end) tl' =
    List.filter (fun t => match t with [] => false | _ :: _ => true end) tl ++
    selector_tokens s2.
Proof.
  intros Hc. induction s1 as [|x s1 IH].
  - destruct (split_separators_cons_sep c s2 Hc) as (tl' & E & Hf).
    exists [], [], tl'. split; [done|]. split; [exact E|exact Hf].
  - destruct IH as (hd & tl & tl' & E1 & E2 & Hf).
    destruct (is_separator x) eqn:Hx.
    + destruct (split_separators_cons_sep x s1 Hx) as (t1 & Ea & Ha).
      destruct (split_separators_cons_sep x (s1 ++ c :: s2) Hx)
        as (t2 & Eb & Hb).
      exists [], t1, t2. split; [done|]. split; [done|].
      rewrite Ha, Hb. unfold selector_tokens. rewrite E1, E2. simpl.
      destruct hd; simpl; by rewrite Hf.
    + destruct (split_separators_cons_plain x s1 Hx) as (h1 & t1 & Ea & Ea').
      destruct (split_separators_cons_plain x (s1 ++ c :: s2) Hx)
        as (h2 & t2 & Eb & Eb').
      rewrite E1 in Ea. injection Ea as <- <-.
      rewrite E2 in Eb. injection Eb as <- <-.
      exists (x :: hd), tl, tl'. done.
Qed.

Lemma selector_tokens_app_sep (s1 s2 : str) (c : ascii) :
  is_separator c = true ->
  selector_tokens (s1 ++ c :: s2) = selector_tokens s1 ++ selector_tokens s2.
Proof.
  intros Hc.
  destruct (split_separators_app_sep c s2 Hc s1)
    as (hd & tl & tl' & E1 & E2 & Hf).
  unfold selector_tokens at 1 2. rewrite E1, E2. simpl.
  destruct hd; simpl; by rewrite Hf.
Qed.

Lemma enable_pieces_tokens (l : list str) (w : World) :
  forEach enable_piece (map replace_stars l) w =
  forEach enable_piece
    (map replace_stars
       (List.filter (fun t => match t with [] => false | _ :: _ => true end) l))
    w.
Proof.
  revert w. induction l as [|t l IH]; intros w; [done|].
  destruct t as [|c t].
  - cbn [map List.filter forEach replace_stars flat_map].
    unfold mbind, M_bind. cbn [enable_piece]. apply IH.
  - cbn [map List.filter forEach]. unfold mbind, M_bind.
    destruct (enable_piece _ w) as [[[]|e|] w1]; [apply IH|done..].
Qed.

(** What [enable] leaves for a selector, from its tokens. *)
Lemma enable_rules_tokens (s : str) (w : World) :
  let r := forEach enable_piece (map replace_stars (selector_tokens s))
             (with_skips [] (with_names [] w)) in
  (enable (VString s) w).1 = match r.1 with Normal _ => Normal tt | c => c end /\
  names (enable (VString s) w).2 = names r.2 /\
  skips (enable (VString s) w).2 = skips r.2.
Proof.
  cbv zeta. destruct (enable_rules (VString s) w) as (Ho & Hn & Hs & _).
  rewrite Ho, Hn, Hs. cbn [as_string default].
  rewrite enable_pieces_tokens. fold (selector_tokens s).
  match goal with |- context [forEach enable_piece ?l (with_skips [] (with_names [] ?a))] =>
    destruct (enable_pieces_offset l
                (with_skips [] (with_names [] a))
                (with_skips [] (with_names [] w)) [] [] eq_refl eq_refl)
      as (Ho' & Hn' & Hs') end.
  rewrite Ho', Hn', Hs'. done.
Qed.

(** X3: separators only delimit: two selectors with the same non-empty
    pieces, whatever commas and white space surround them, make [enable]
    end the same way with the same rule lists. *)
Theorem enable_same_tokens (s1 s2 : str) (w : World) :
  selector_tokens s1 = selector_tokens s2 ->
  (enable (VString s1) w).1 = (enable (VString s2) w).1 /\
  names (enable (VString s1) w).2 = names (enable (VString s2) w).2 /\
  skips (enable (VString s1) w).2 = skips (enable (VString s2) w).2.
Proof.
  intros E.
  destruct (enable_rules_tokens s1 w) as (Ho1 & Hn1 & Hs1).
  destruct (enable_rules_tokens s2 w) as (Ho2 & Hn2 & Hs2).
  rewrite Ho1, Ho2, Hn1, Hn2, Hs1, Hs2, E. done.
Qed.

Lemma enable_same_tokens_witness :
  (enable (sel " a:*,,  -b ,") example_world).1 =
    (enable (sel "a:*,-b") example_world).1 /\
  names (enable (sel " a:*,,  -b ,") example_world).2 =
    names (enable (sel "a:*,-b") example_world).2 /\
  skips (enable (sel " a:*,,  -b ,") example_world).2 =
    skips (enable (sel "a:*,-b") example_world).2.
Proof.
  apply (enable_same_tokens (lit " a:*,,  -b ,") (lit "a:*,-b") example_world).
  vm_compute. reflexivity.
Defined.

Lemma selector_tokens_separators (s : str) :
  forallb is_separator s = true -> selector_tokens s = [].
Proof.
  induction s as [|c s IH]; [done|]. simpl.
  intros [Hc Hs]%andb_prop. rewrite selector_tokens_cons_sep by done.
  by apply IH.
Qed.

(** X4: a selector made of commas and white space only compiles to no
    rule at all, like the empty selector. *)
Theorem enable_separators_only (s : str) (w : World) :
  forallb is_separator s = true ->
  (enable (VString s) w).1 = Normal tt /\
  names (enable (VString s) w).2 = [] /\
  skips (enable (VString s) w).2 = [].
Proof.
  intros Hs. destruct (enable_rules_tokens s w) as (Ho & Hn & Hk).
  rewrite Ho, Hn, Hk, (selector_tokens_separators s Hs). done.
Qed.

Lemma enable_separators_only_witness :
  (enable (sel " , ,,  ") example_world).1 = Normal tt /\
  names (enable (sel " , ,,  ") example_world).2 = [] /\
  skips (enable (sel " , ,,  ") example_world).2 = [].
Proof.
  apply (enable_separators_only (lit " , ,,  ") example_world).
  vm_compute. reflexivity.
Defined.

(** X5: selectors compose: when [enable] returns for [s1], then for [s1],
    a separator and [s2] it ends as it does for [s2], and the rule lists
    are those of [s1] followed by those of [s2]; so a namespace not ending
    in [*] is enabled when neither selector denies it and one allows it. *)
Theorem enable_concat (s1 s2 : str) (c : ascii) (w : World) :
  is_separator c = true ->
  (enable (VString s1) w).1 = Normal tt ->
  let w1 := (enable (VString s1) w).2 in
  let w2 := (enable (VString s2) w).2 in
  let w12 := (enable (VString (s1 ++ c :: s2)) w).2 in
  (enable (VString (s1 ++ c :: s2)) w).1 = (enable (VString s2) w).1 /\
  names w12 = names w1 ++ names w2 /\
  skips w12 = skips w1 ++ skips w2 /\
  forall namespace,
    enabled w12 namespace =
    ends_with_star namespace ||
    negb (existsb (fun re => RegExp_test re namespace) (skips w1)) &&
    negb (existsb (fun re => RegExp_test re namespace) (skips w2)) &&
    (existsb (fun re => RegExp_test re namespace) (names w1) ||
     existsb (fun re => RegExp_test re namespace) (names w2)).
Proof.
  intros Hc H1 w1 w2 w12.
  destruct (enable_rules_tokens s1 w) as (Ho1 & Hn1 & Hs1).
  destruct (enable_rules_tokens s2 w) as (Ho2 & Hn2 & Hs2).
  destruct (enable_rules_tokens (s1 ++ c :: s2) w) as (Ho & Hn & Hs).
  rewrite (selector_tokens_app_sep s1 s2 c Hc), map_app, enable_pieces_app
    in Ho, Hn, Hs.
  rewrite H1 in Ho1.
  destruct (forEach enable_piece (map replace_stars (selector_tokens s1))
              (with_skips [] (with_names [] w))) as [[[]|e|] wa] eqn:Ea;
    try discriminate.
  destruct (enable_pieces_offset (map replace_stars (selector_tokens s2))
              wa (with_skips [] (with_names [] w))
              (names wa) (skips wa)) as (Ho' & Hn' & Hs').
  { cbn [names with_skips with_names]. by rewrite app_nil_r. }
  { cbn [skips with_skips with_names]. by rewrite app_nil_r. }
  rewrite Ho' in Ho. rewrite Hn' in Hn. rewrite Hs' in Hs.
  cbn [snd] in Hn1, Hs1.
  assert (names w12 = names w1 ++ names w2) as En.
  { unfold w12, w1, w2. by rewrite Hn, Hn1, Hn2. }
  assert (skips w12 = skips w1 ++ skips w2) as Es.
  { unfold w12, w1, w2. by rewrite Hs, Hs1, Hs2. }
  split; [by rewrite Ho, Ho2|]. split; [done|]. split; [done|].
  intros namespace. rewrite enabled_formula, En, Es, !existsb_app.
  by rewrite negb_orb.
Qed.

Lemma enable_concat_witness :
  let w1 := (enable (sel "api:*") example_world).2 in
  let w2 := (enable (sel "-api:internal,web") example_world).2 in
  let w12 := (enable (VString (lit "api:*" ++ "," :: lit "-api:internal,web")) example_world).2 in
  (enable (VString (lit "api:*" ++ "," :: lit "-api:internal,web")) example_world).1 =
    (enable (sel "-api:internal,web") example_world).1 /\
  names w12 = names w1 ++ names w2 /\
  skips w12 = skips w1 ++ skips w2 /\
  forall namespace,
    enabled w12 namespace =
    ends_with_star namespace ||
    negb (existsb (fun re => RegExp_test re namespace) (skips w1)) &&
    negb (existsb (fun re => RegExp_test re namespace) (skips w2)) &&
    (existsb (fun re => RegExp_test re namespace) (names w1) ||
     existsb (fun re => RegExp_test re namespace) (names w2)).
Proof.
  cbv zeta.
  apply (enable_concat (lit "api:*") (lit "-api:internal,web") ","
           example_world); vm_compute; reflexivity.
Defined.

(** ** What a token enables *)

Lemma selector_tokens_token (token : str) :
  token <> [] ->
  forallb glob_char token = true ->
  selector_tokens token = [token].
Proof.
  intros Hne Hall. unfold selector_tokens.
  rewrite split_separators_token.
  - by destruct token.
  - clear Hne. induction token as [|x token IH]; simpl in *; [done|].
    apply andb_prop in Hall as [Hx Ht]. rewrite (IH Ht), andb_true_r.
    apply glob_char_inv in Hx as [-> _]. done.
Qed.

Lemma replace_stars_head (c : ascii) (rest : str) :
  glob_char c = true -> Ascii.eqb c "-" = false ->
  exists c' rest', replace_stars (c :: rest) = c' :: rest' /\
                   Ascii.eqb c' "-" = false.
Proof.
  intros Hc Hm. apply glob_char_inv in Hc as [_ [->|[Hstar _]]].
  - by eexists _, _.
  - unfold replace_stars. simpl.
    apply Ascii.eqb_neq in Hstar. rewrite Hstar. by eexists _, _.
Qed.

(** The rule a glob token compiles to, with its source. *)
Lemma enable_token_rule (token : str) (w : World) :
  token <> [] ->
  forallb glob_char token = true ->
  let body := (token_body token).2 in
  let re := MkRegExp (Pattern.source_of ("^" :: replace_stars body ++ ["$"]))
                     (glob_regex body) in
  (enable (VString token) w).1 = Normal tt /\
  names (enable (VString token) w).2 =
    (if (token_body token).1 then [] else [re]) /\
  skips (enable (VString token) w).2 =
    (if (token_body token).1 then [re] else []).
Proof.
  intros Hne Hall body re.
  destruct (enable_rules_tokens token w) as (Ho & Hn & Hs).
  rewrite Ho, Hn, Hs, (selector_tokens_token token Hne Hall).
  cbn [map forEach]. unfold mbind, M_bind.
  assert (forallb glob_char body = true) as Hbody.
  { unfold body, token_body. destruct token as [|c rest]; [done|].
    destruct (Ascii.eqb c "-"); [|done]. simpl in Hall.
    by apply andb_prop in Hall as [_ ?]. }
  destruct (RegExp_new_glob body Hbody) as [source E].
  assert (source = Pattern.source_of ("^" :: replace_stars body ++ ["$"]))
    as ->.
  { unfold RegExp_new in E.
    destruct (Pattern.parse _ _ _); [|done..]. by injection E as <- _. }
  fold re in E.
  destruct token as [|c rest]; [done|].
  unfold body, token_body in *.
  destruct (Ascii.eqb c "-") eqn:Ec; cbn [fst snd] in *.
  - apply Ascii.eqb_eq in Ec as ->.
    change (replace_stars ("-" :: rest)) with ("-" :: replace_stars rest).
    cbn [enable_piece Ascii.eqb Bool.eqb]. unfold mbind, M_bind, lift, modify.
    rewrite E. done.
  - simpl in Hall. apply andb_prop in Hall as [Hc _].
    destruct (replace_stars_head c rest Hc Ec) as (c' & rest' & Er & Ec').
    rewrite Er in *. unfold enable_piece. rewrite Ec'.
    unfold mbind, M_bind, lift, modify. rewrite E. done.
Qed.

Lemma glob_literal (p ns : str) :
  literal_token p = true ->
  glob same_line p ns = true <-> ns = p.
Proof.
  revert ns. induction p as [|c p IH]; intros ns Hp.
  - destruct ns; simpl; split; done.
  - simpl in Hp. apply andb_prop in Hp as [Hc Hp].
    apply andb_prop in Hc as [_ Hstar]. apply negb_true_iff in Hstar.
    cbn [glob]. rewrite Hstar. destruct ns as [|x ns]; [split; done|].
    rewrite andb_true_iff, Ascii.eqb_eq, (IH ns Hp). split.
    + by intros [-> ->].
    + by intros [= -> ->].
Qed.

Lemma glob_final_star (wild : ascii -> bool) (ns : str) :
  glob wild ["*"] ns = forallb wild ns.
Proof.
  induction ns as [|x ns IH]; [done|].
  change (glob wild ["*"] (x :: ns))
    with (false || wild x && glob wild ["*"] ns).
  by rewrite IH.
Qed.

Lemma glob_prefix (p ns : str) :
  literal_token p = true ->
  glob same_line (p ++ ["*"]) ns = true <->
  exists tail, ns = p ++ tail /\ forallb same_line tail = true.
Proof.
  revert ns. induction p as [|c p IH]; intros ns Hp.
  - cbn [app]. rewrite glob_final_star. split.
    + intros Hw. by exists ns.
    + by intros (tail & -> & Hw).
  - simpl in Hp. apply andb_prop in Hp as [Hc Hp].
    apply andb_prop in Hc as [_ Hstar]. apply negb_true_iff in Hstar.
    cbn [app glob]. rewrite Hstar. destruct ns as [|x ns].
    + split; [done|]. by intros (tail & [=] & _).
    + rewrite andb_true_iff, Ascii.eqb_eq, (IH ns Hp). split.
      * intros [-> (tail & -> & Hw)]. by exists tail.
      * intros (tail & [= -> ->] & Hw). split; [done|]. by exists tail.
Qed.

Lemma literal_token_glob (p : str) :
  literal_token p = true -> forallb glob_char p = true.
Proof.
  induction p as [|c p IH]; [done|]. simpl.
  intros [[-> _]%andb_prop Hp]%andb_prop. by rewrite IH.
Qed.

Lemma enabled_single_allow (w : World) (re : RegExp) (namespace : str) :
  names w = [re] -> skips w = [] ->
  enabled w namespace = ends_with_star namespace || RegExp_test re namespace.
Proof.
  intros Hn Hs. rewrite enabled_formula, Hn, Hs. simpl.
  by rewrite orb_false_r.
Qed.

(** X6: after [enable] of one token without wildcard or pattern syntax,
    not starting with [-], the namespaces that are enabled are the token
    itself and those that end in [*]. *)
Theorem enable_literal_token (p : str) (w : World) (namespace : str) :
  p <> [] ->
  literal_token p = true ->
  (token_body p).1 = false ->
  enabled (enable (VString p) w).2 namespace = true <->
  namespace = p \/ ends_with_star namespace = true.
Proof.
  intros Hne Hp Hallow.
  destruct (enable_token_rule p w Hne (literal_token_glob p Hp))
    as (_ & Hn & Hs).
  assert ((token_body p).2 = p) as Hb.
  { unfold token_body in *. destruct p as [|c p]; [done|].
    by destruct (Ascii.eqb c "-"). }
  rewrite Hallow in Hn, Hs. rewrite Hb in Hn.
  rewrite (enabled_single_allow _ _ _ Hn Hs), test_glob_regex.
  rewrite orb_true_iff, (glob_literal p namespace Hp). tauto.
Qed.

Lemma enable_literal_token_witness :
  enabled (enable (sel "server:http") example_world).2 (lit "server:http") = true <->
  lit "server:http" = lit "server:http" \/
  ends_with_star (lit "server:http") = true.
Proof.
  apply (enable_literal_token (lit "server:http") example_world
           (lit "server:http")); [discriminate|vm_compute; reflexivity..].
Defined.

(** X7: after [enable] of a literal prefix followed by [*], not starting
    with [-], the namespaces that are enabled are those that start with
    the prefix and go on without a line terminator, and those that end in
    [*]; with an empty prefix, the selector [*], every namespace without
    a line terminator is enabled. *)
Theorem enable_prefix_wildcard (p : str) (w : World) (namespace : str) :
  literal_token p = true ->
  (token_body (p ++ ["*"])).1 = false ->
  enabled (enable (VString (p ++ ["*"])) w).2 namespace = true <->
  (exists tail, namespace = p ++ tail /\ forallb same_line tail = true) \/
  ends_with_star namespace = true.
Proof.
  intros Hp Hallow.
  assert (forallb glob_char (p ++ ["*"]) = true) as Hall.
  { rewrite forallb_app, (literal_token_glob p Hp). done. }
  destruct (enable_token_rule (p ++ ["*"]) w) as (_ & Hn & Hs);
    [by destruct p|done|].
  assert ((token_body (p ++ ["*"])).2 = p ++ ["*"]) as Hb.
  { unfold token_body in *. destruct p as [|c p]; [done|].
    cbn [app] in *. by destruct (Ascii.eqb c "-"). }
  rewrite Hallow in Hn, Hs. rewrite Hb in Hn.
  rewrite (enabled_single_allow _ _ _ Hn Hs), test_glob_regex.
  rewrite orb_true_iff, (glob_prefix p namespace Hp). tauto.
Qed.

Lemma enable_prefix_wildcard_witness :
  enabled (enable (VString (lit "api:" ++ ["*"])) example_world).2
          (lit "api:users") = true <->
  (exists tail, lit "api:users" = lit "api:" ++ tail /\
                forallb same_line tail = true) \/
  ends_with_star (lit "api:users") = true.
Proof.
  apply (enable_prefix_wildcard (lit "api:") example_world (lit "api:users"));
    vm_compute; reflexivity.
Defined.

(** ** [disable] and what it returns *)

Lemma escape_plain (p : str) :
  forallb (fun c => negb (Ascii.eqb c "\") && negb (Ascii.eqb c "/") &&
                    negb (is_line_terminator c)) p = true ->
  Pattern.escape p = p.
Proof.
  induction p as [|c p IH]; [done|]. simpl.
  intros [[[Hb Hs]%andb_prop Hl]%andb_prop Hp]%andb_prop.
  apply negb_true_iff in Hb, Hs, Hl. rewrite Hb, Hs.
  unfold is_line_terminator in Hl. apply orb_false_elim in Hl as [-> ->].
  by rewrite (IH Hp).
Qed.

Lemma replace_stars_plain (body : str) :
  forallb glob_char body = true ->
  slash_free body = true ->
  forallb (fun c => negb (Ascii.eqb c "\") && negb (Ascii.eqb c "/") &&
                    negb (is_line_terminator c)) (replace_stars body) = true.
Proof.
  induction body as [|c body IH]; [done|]. simpl.
  intros [Hc Hb]%andb_prop [Hs Hsb]%andb_prop.
  unfold replace_stars. cbn [flat_map]. rewrite forallb_app.
  fold (replace_stars body). rewrite (IH Hb Hsb), andb_true_r.
  destruct (Ascii.eqb_spec c "*") as [->|Hne]; [done|].
  cbn [forallb]. rewrite Hs, !andb_true_r.
  unfold glob_char in Hc.
  apply andb_prop in Hc as [Hsep Hcl].
  assert (is_line_terminator c = false) as ->.
  { apply negb_true_iff in Hsep. unfold is_separator, is_white_space in Hsep.
    unfold is_line_terminator.
    destruct (Ascii.eqb c "010"), (Ascii.eqb c "013"); try done;
      by rewrite ?orb_true_r in Hsep. }
  destruct (Ascii.eqb_spec c "\") as [->|]; [|done].
  vm_compute in Hcl. discriminate.
Qed.

Lemma substring_inner (x : str) :
  let s := "/" :: ("^" :: x ++ ["$"]) ++ ["/"] in
  substring 2 (Z.of_nat (length s) - 2) s = x.
Proof.
  cbv zeta. unfold substring.
  assert (length ("/" :: ("^" :: x ++ ["$"]) ++ ["/"]) = length x + 4) as ->.
  { cbn [length app]. rewrite !length_app. simpl. lia. }
  replace (Z.to_nat (Z.min (Z.min (Z.max 2 0) (Z.of_nat (length x + 4)))
                           (Z.min (Z.max (Z.of_nat (length x + 4) - 2) 0)
                                  (Z.of_nat (length x + 4)))))
    with 2 by lia.
  replace (Z.to_nat (Z.max (Z.min (Z.max 2 0) (Z.of_nat (length x + 4)))
                           (Z.min (Z.max (Z.of_nat (length x + 4) - 2) 0)
                                  (Z.of_nat (length x + 4)))))
    with (length x + 2) by lia.
  replace (length x + 2 - 2) with (length x) by lia.
  change (drop 2 ("/" :: ("^" :: x ++ ["$"]) ++ ["/"]))
    with ((x ++ ["$"]) ++ ["/"]).
  rewrite <- app_assoc. by rewrite take_app_length.
Qed.

Lemma replace_final_wildcard_cons (c : ascii) (s : str) :
  Ascii.eqb c "." = false ->
  replace_final_wildcard (c :: s) = c :: replace_final_wildcard s.
Proof.
  intros Hc.
  destruct c as [[] [] [] [] [] [] [] []]; try discriminate Hc; reflexivity.
Qed.

Lemma glob_char_not_dot (c : ascii) :
  glob_char c = true -> Ascii.eqb c "." = false.
Proof.
  intros Hc. destruct (Ascii.eqb_spec c ".") as [->|]; [|done].
  vm_compute in Hc. discriminate.
Qed.

Lemma replace_final_wildcard_stars (body : str) :
  forallb glob_char body = true ->
  final_star_only body = true ->
  replace_final_wildcard (replace_stars body) = body.
Proof.
  induction body as [|c body IH]; [done|].
  intros Hall Hf. simpl in Hall. apply andb_prop in Hall as [Hc Hb].
  destruct body as [|c2 body].
  - destruct (Ascii.eqb_spec c "*") as [->|Hne]; [done|].
    change (replace_stars [c])
      with ((if Ascii.eqb c "*" then lit ".*?" else [c]) ++ []).
    apply Ascii.eqb_neq in Hne. rewrite Hne. cbn [app].
    by rewrite replace_final_wildcard_cons by (by apply glob_char_not_dot).
  - cbn [final_star_only] in Hf. apply andb_prop in Hf as [Hstar Hf].
    apply negb_true_iff in Hstar.
    change (replace_stars (c :: c2 :: body))
      with ((if Ascii.eqb c "*" then lit ".*?" else [c]) ++
            replace_stars (c2 :: body)).
    rewrite Hstar. cbn [app].
    rewrite replace_final_wildcard_cons by (by apply glob_char_not_dot).
    by rewrite (IH Hb Hf).
Qed.

Lemma regexpToNamespace_glob (body : str) :
  forallb glob_char body = true ->
  slash_free body = true ->
  final_star_only body = true ->
  regexpToNamespace
    (MkRegExp (Pattern.source_of ("^" :: replace_stars body ++ ["$"]))
              (glob_regex body)) = body.
Proof.
  intros Hall Hs Hf. unfold regexpToNamespace, RegExp_toString.
  cbn [re_source Pattern.source_of].
  rewrite escape_plain.
  2:{ cbn [forallb]. rewrite forallb_app, (replace_stars_plain body Hall Hs).
      done. }
  rewrite (substring_inner (replace_stars body)).
  by apply replace_final_wildcard_stars.
Qed.

(** X8: for one token of glob characters without [/], whose only
    wildcard, if any, is its last character, [disable] after [enable]
    returns the token itself: for such tokens the round trip through the
    compiled rule is exact. *)
Theorem disable_returns_token (token : str) (w : World) :
  token <> [] ->
  forallb glob_char token = true ->
  slash_free token = true ->
  final_star_only token = true ->
  (disable (enable (VString token) w).2).1 = Normal token.
Proof.
  intros Hne Hall Hs Hf.
  destruct (enable_token_rule token w Hne Hall) as (_ & Hn & Hk).
  unfold disable, mbind, M_bind, get. rewrite Hn, Hk, enable_empty.
  assert (forallb glob_char (token_body token).2 = true /\
          slash_free (token_body token).2 = true /\
          final_star_only (token_body token).2 = true /\
          token = (if (token_body token).1 then "-" :: (token_body token).2
                   else (token_body token).2)) as (Hb1 & Hb2 & Hb3 & Et).
  { unfold token_body. destruct token as [|c rest]; [done|].
    destruct (Ascii.eqb_spec c "-") as [->|]; cbn [fst snd]; [|done].
    change (forallb glob_char rest = true) in Hall.
    change (slash_free rest = true) in Hs.
    split; [done|]. split; [done|]. split; [|done].
    destruct rest; [done|]. exact Hf. }
  destruct (token_body token).1; cbn [map app join_comma];
    rewrite (regexpToNamespace_glob _ Hb1 Hb2 Hb3);
    unfold mret, M_ret; cbn [fst]; by rewrite <- Et.
Qed.

Lemma disable_returns_token_witness :
  (disable (enable (VString (lit "-api:internal:*")) example_world).2).1
  = Normal (lit "-api:internal:*").
Proof.
  apply (disable_returns_token (lit "-api:internal:*") example_world);
    [discriminate|vm_compute; reflexivity..].
Defined.

(** X9: [disable] turns everything off: it returns, [DEBUG] is deleted,
    both rule lists are empty, every registered instance is left enabled
    exactly when its namespace ends in [*], and a second [disable]
    returns the empty string. *)
Theorem disable_turns_off (w : World) :
  registry_ok w = true ->
  (exists s, (disable w).1 = Normal s) /\
  env_DEBUG (disable w).2 = None /\
  names (disable w).2 = [] /\ skips (disable w).2 = [] /\
  (forall a, a ∈ instances (disable w).2 ->
     exists d, heap (disable w).2 !! a = Some d /\
               d_enabled d = ends_with_star (d_namespace d)) /\
  (disable (disable w).2).1 = Normal [].
Proof.
  intros Hok.
  assert (disable w =
          (Normal (join_comma (map regexpToNamespace (names w) ++
                               map (cons "-") (map regexpToNamespace (skips w)))),
           (enable (VString []) w).2)) as E.
  { unfold disable, mbind, M_bind, get. by rewrite enable_empty. }
  rewrite E. cbn [fst snd].
  split; [by eexists|].
  destruct (enable (VString []) w) as [c w'] eqn:Een.
  pose proof Een as Een'. rewrite enable_empty in Een'.
  injection Een' as <- Ew'. cbn [snd].
  assert (names w' = [] /\ skips w' = [] /\ env_DEBUG w' = None)
    as (Hn & Hs & He) by (by rewrite <- Ew').
  split; [done|]. split; [done|]. split; [done|]. split.
  - intros a Ha.
    destruct (enable_normal _ _ _ Hok Een) as [_ Hall].
    destruct (Hall a Ha) as (d0 & _ & Hd).
    eexists. split; [exact Hd|]. simpl. by apply enabled_no_rules.
  - unfold disable, mbind, M_bind, get. rewrite Hn, Hs, enable_empty. done.
Qed.

Lemma disable_turns_off_witness :
  let w := (createDebug (lit "lib:*")
              (createDebug (lit "app") (enable (sel "*") example_world).2).2).2 in
  (exists s, (disable w).1 = Normal s) /\
  env_DEBUG (disable w).2 = None /\
  names (disable w).2 = [] /\ skips (disable w).2 = [] /\
  (forall a, a ∈ instances (disable w).2 ->
     exists d, heap (disable w).2 !! a = Some d /\
               d_enabled d = ends_with_star (d_namespace d)) /\
  (disable (disable w).2).1 = Normal [].
Proof.
  cbv zeta.
  apply (disable_turns_off
           (createDebug (lit "lib:*")
              (createDebug (lit "app")
                 (enable (sel "*") example_world).2).2).2).
  vm_compute. reflexivity.
Defined.

(** ** The registry *)

Lemma enable_registry (v : Value) (w : World) :
  instances (enable v w).2 = instances w /\
  length (heap (enable v w).2) = length (heap w).
Proof.
  rewrite enable_unfold.
  match goal with |- context [forEach enable_piece ?l ?w0] =>
    destruct (enable_pieces_frame l w0) as [Hi Hh];
    destruct (forEach enable_piece l w0) as [[[]|e|] w1] end;
    simpl in Hi, Hh; cbn [snd]; [|by rewrite Hi, Hh..].
  split; [exact Hi|].
  change (length (refresh_heap w1 (instances w1) (heap w1)) = length (heap w)).
  by rewrite refresh_heap_length, Hh.
Qed.

Lemma disable_registry (w : World) :
  instances (disable w).2 = instances w.
Proof.
  unfold disable, mbind, M_bind, get.
  pose proof (enable_registry (VString []) w) as [Hi _].
  by destruct (enable (VString []) w) as [[[]|e|] w'].
Qed.

Lemma perform_registry_nodup `{Imports} (c : call) (w : World) :
  registry_ok w = true -> NoDup (instances w) ->
  NoDup (instances (perform c w)).
Proof.
  intros Hok Hnd. pose proof (proj1 (registry_ok_spec w) Hok) as Hlt.
  assert (NoDup (instances w ++ [length (heap w)])) as Hsnoc.
  { apply NoDup_app. split; [done|]. split; [|apply NoDup_singleton].
    intros a Ha ->%list_elem_of_singleton. specialize (Hlt _ Ha). lia. }
  destruct c as [ns|self args|this|this sub delim|ns]; simpl; try done.
  - unfold invoke. destruct (heap w !! self) as [debug|]; [|done].
    destruct (d_enabled debug); simpl; [|done].
    by destruct (applyFormatters (formatters w) args).
  - unfold destroy. destruct (list_find _ _) as [[i x]|]; [|done]. simpl.
    apply (sublist_NoDup _ _ Hnd), sublist_delete.
  - unfold extend. by destruct (heap w !! this).
Qed.

(** X10: in every state the module can reach, each address of the
    registry is the address of an instance, and no instance is registered
    twice. *)
Theorem reachable_registry `{Imports} (w : World) :
  reachable w ->
  registry_ok w = true /\ NoDup (instances w).
Proof.
  induction 1 as [DEBUG clk|v w _ [Hok Hnd]|w _ [Hok Hnd]|c w _ [Hok Hnd]
                 |fm w _ [Hok Hnd]|a l w _ [Hok Hnd]].
  - split; [done|apply NoDup_nil_2].
  - split; [by apply registry_ok_enable|].
    by rewrite (proj1 (enable_registry v w)).
  - split; [by apply registry_ok_disable|]. by rewrite disable_registry.
  - split; [by apply registry_ok_perform|by apply perform_registry_nodup].
  - done.
  - split; [|done]. apply registry_ok_spec. intros b Hb. simpl.
    rewrite length_alter. by apply (proj1 (registry_ok_spec w) Hok).
Qed.

Lemma reachable_registry_witness :
  let w := (enable (sel "a*")
              (perform (Destroy 0)
                 (perform (Extend 0 (lit "b") None)
                    (perform (CreateDebug (lit "a")) example_world)))).2 in
  registry_ok w = true /\ NoDup (instances w).
Proof.
  cbv zeta. apply reachable_registry.
  apply reachable_enable, reachable_perform, reachable_perform,
    reachable_perform, reachable_initial.
Defined.

Lemma elem_of_delete_NoDup (l : list addr) (i : nat) (x a : addr) :
  NoDup l -> l !! i = Some x ->
  a ∈ delete i l <-> a ∈ l /\ a <> x.
Proof.
  intros Hnd Hi. rewrite delete_take_drop.
  pose proof (take_drop_middle l i x Hi) as El.
  remember (take i l) as t eqn:Et. remember (drop (S i) l) as d eqn:Ed.
  clear Et Ed Hi. subst l.
  apply NoDup_app in Hnd as (_ & Hx & Hnd').
  apply NoDup_cons in Hnd' as [Hxd _].
  rewrite !elem_of_app, elem_of_cons. split.
  - intros [Ha|Ha].
    + split; [by left|]. intros ->. apply (Hx _ Ha), list_elem_of_here.
    + split; [by right; right|]. by intros ->.
  - intros [[Ha|[->|Ha]] Hne]; [by left|done|by right].
Qed.

Lemma destroy_registry_facts (this : addr) (w : World) :
  NoDup (instances w) ->
  (this ∉ instances (destroy this w).2) /\ heap (destroy this w).2 = heap w.
Proof.
  intros Hnd. unfold destroy.
  destruct (list_find (eq this) (instances w)) as [[i x]|] eqn:Ef;
    cbn [snd instances with_instances heap].
  - apply list_find_Some in Ef as (Hi & <- & _). split; [|done].
    intros Hin. by apply (elem_of_delete_NoDup _ _ _ _ Hnd Hi) in Hin as [_ ?].
  - split; [|done]. apply list_find_None in Ef. rewrite Forall_forall in Ef.
    intros Hin. by apply (Ef _ Hin).
Qed.

Lemma destroy_absent (this : addr) (w : World) :
  this ∉ instances w -> destroy this w = (Normal false, w).
Proof.
  intros Hin. unfold destroy.
  destruct (list_find (eq this) (instances w)) as [[i x]|] eqn:Ef; [|done].
  apply list_find_Some in Ef as (Hi & <- & _).
  by apply list_elem_of_lookup_2 in Hi.
Qed.

(** X11: [destroy] answers whether the instance was registered and takes
    it out of the registry; the other entries stay, no instance is
    touched, and a second [destroy] answers false and changes nothing. *)
Theorem destroy_unregisters (this : addr) (w : World) :
  NoDup (instances w) ->
  (destroy this w).1 = Normal (bool_decide (this ∈ instances w)) /\
  (forall a, a ∈ instances (destroy this w).2 <->
             a ∈ instances w /\ a <> this) /\
  heap (destroy this w).2 = heap w /\
  destroy this (destroy this w).2 = (Normal false, (destroy this w).2).
Proof.
  intros Hnd. destruct (destroy_registry_facts this w Hnd) as [Hout Hh].
  split; [|split; [|split; [exact Hh|by apply destroy_absent]]].
  - unfold destroy.
    destruct (list_find (eq this) (instances w)) as [[i x]|] eqn:Ef;
      cbn [fst].
    + apply list_find_Some in Ef as (Hi & <- & _).
      rewrite bool_decide_eq_true_2; [done|].
      by apply list_elem_of_lookup_2 in Hi.
    + apply list_find_None in Ef. rewrite Forall_forall in Ef.
      rewrite bool_decide_eq_false_2; [done|].
      intros Hin. by apply (Ef _ Hin).
  - intros a. unfold destroy.
    destruct (list_find (eq this) (instances w)) as [[i x]|] eqn:Ef;
      cbn [snd instances with_instances].
    + apply list_find_Some in Ef as (Hi & <- & _).
      by apply elem_of_delete_NoDup.
    + apply list_find_None in Ef. rewrite Forall_forall in Ef.
      split; [|by intros [? _]].
      intros Ha. split; [done|]. intros ->. by apply (Ef _ Ha).
Qed.

Lemma destroy_unregisters_witness :
  let w := (createDebug (lit "b") (createDebug (lit "a") example_world).2).2 in
  (destroy 0 w).1 = Normal (bool_decide (0 ∈ instances w)) /\
  (forall a, a ∈ instances (destroy 0 w).2 <-> a ∈ instances w /\ a <> 0) /\
  heap (destroy 0 w).2 = heap w /\
  destroy 0 (destroy 0 w).2 = (Normal false, (destroy 0 w).2).
Proof.
  cbv zeta.
  apply (destroy_unregisters 0
           (createDebug (lit "b") (createDebug (lit "a") example_world).2).2).
  refine (bool_decide_unpack _ _). vm_compute. exact I.
Defined.

Lemma enable_unregistered (v : Value) (w : World) (a : addr) :
  a ∉ instances w ->
  heap (enable v w).2 !! a = heap w !! a.
Proof.
  intros Ha. rewrite enable_unfold.
  match goal with |- context [forEach enable_piece ?l ?w0] =>
    destruct (enable_pieces_frame l w0) as [Hi Hh];
    destruct (forEach enable_piece l w0) as [[[]|e|] w1] end;
    simpl in Hi, Hh; cbn [snd]; [|by rewrite Hh..].
  change (refresh_heap w1 (instances w1) (heap w1) !! a = heap w !! a).
  rewrite refresh_heap_lookup, decide_False, Hh; [done|]. by rewrite Hi.
Qed.

(** X12: [enable] only refreshes the instances of the registry: an
    instance that is not registered, so one that was destroyed, keeps its
    record, flag included, through every later [enable]. *)
Theorem enable_after_destroy (v : Value) (this : addr) (w : World) :
  NoDup (instances w) ->
  heap (enable v (destroy this w).2).2 !! this = heap w !! this.
Proof.
  intros Hnd.
  destruct (destroy_registry_facts this w Hnd) as [Hin Hh].
  rewrite enable_unregistered; [by rewrite Hh|]. exact Hin.
Qed.

Lemma enable_after_destroy_witness :
  let w := (createDebug (lit "app") (enable (sel "app") example_world).2).2 in
  heap (enable (sel "") (destroy 0 w).2).2 !! 0 = heap w !! 0.
Proof.
  cbv zeta.
  apply (enable_after_destroy (sel "") 0
           (createDebug (lit "app") (enable (sel "app") example_world).2).2).
  refine (bool_decide_unpack _ _). vm_compute. exact I.
Defined.

(** X13: [destroy] undoes the registration that [createDebug] made: on
    the instance just created it answers true and the registry is what it
    was before the creation. *)
Theorem create_destroy `{Imports} (namespace : str) (w : World) :
  registry_ok w = true ->
  let a := length (heap w) in
  let w1 := (createDebug namespace w).2 in
  (createDebug namespace w).1 = Normal a /\
  (destroy a w1).1 = Normal true /\
  instances (destroy a w1).2 = instances w.
Proof.
  intros Hok a w1. split; [done|].
  pose proof (proj1 (registry_ok_spec w) Hok) as Hlt.
  unfold destroy, w1, createDebug. cbn [snd instances with_instances with_heap].
  fold a.
  assert (list_find (eq a) (instances w ++ [a]) =
          Some (length (instances w), a)) as ->.
  { apply list_find_Some. split; [|split; [done|]].
    - by rewrite lookup_app_r, Nat.sub_diag.
    - intros j y Hj Hjl Heq.
      rewrite lookup_app_l in Hj by done.
      apply list_elem_of_lookup_2, Hlt in Hj. unfold a in Heq. lia. }
  cbn [fst snd instances with_instances]. split; [done|].
  rewrite (delete_middle (instances w) [] a). apply app_nil_r.
Qed.

Lemma create_destroy_witness :
  let w := (createDebug (lit "a") example_world).2 in
  let a := length (heap w) in
  let w1 := (createDebug (lit "b") w).2 in
  (createDebug (lit "b") w).1 = Normal a /\
  (destroy a w1).1 = Normal true /\
  instances (destroy a w1).2 = instances w.
Proof.
  cbv zeta.
  apply (create_destroy (lit "b") (createDebug (lit "a") example_world).2).
  vm_compute. reflexivity.
Defined.

(** ** Calls of an instance *)

(** X14: elapsed time: the first call of an enabled instance logs a
    difference of 0, and the next call logs what the clock advanced by
    between the two reads, unless the first read was 0, which the code
    takes for no previous call and logs 0.  Each call reads the clock
    once, and logs one line, to the instance's [log] when it has one. *)
Theorem invoke_elapsed `{Imports} (w : World) (self : addr)
    (debug : DebugInstance) (args1 args2 : list Value) :
  heap w !! self = Some debug ->
  d_enabled debug = true ->
  d_prevTime debug = None ->
  let t1 := clock w (clock_reads w) in
  let t2 := clock w (S (clock_reads w)) in
  let elapsed := if (t1 =? 0)%Z then 0%Z else (t2 - t1)%Z in
  let '(a1, c1) := applyFormatters (formatters w) args1 in
  let '(a2, c2) := applyFormatters (formatters w) args2 in
  let w1 := (invoke self args1 w).2 in
  let w2 := (invoke self args2 w1).2 in
  clock_reads w2 = S (S (clock_reads w)) /\
  trace w2 =
    trace w ++
    (c1 ++ [LoggerCall (d_log debug)
              (prettifyLog (d_namespace debug) (d_color debug) 0 a1)]) ++
    (c2 ++ [LoggerCall (d_log debug)
              (prettifyLog (d_namespace debug) (d_color debug) elapsed a2)]).
Proof.
  intros Hd He Hp t1 t2 elapsed.
  destruct (applyFormatters (formatters w) args1) as [a1 c1] eqn:E1.
  destruct (applyFormatters (formatters w) args2) as [a2 c2] eqn:E2.
  cbv zeta. unfold invoke at 2 4. rewrite Hd, He, Hp, E1. cbn [negb snd].
  rewrite Z.sub_diag.
  unfold invoke. cbn [heap with_trace with_clock_reads with_heap].
  rewrite list_lookup_insert_eq by (by apply lookup_lt_Some in Hd).
  cbn [d_enabled with_times negb d_prevTime formatters clock clock_reads
       heap trace with_trace with_clock_reads with_heap].
  rewrite He, E2.
  cbn [negb snd clock_reads trace with_trace with_clock_reads with_heap
       d_log d_namespace d_color with_times].
  fold t1 t2. split; [done|].
  rewrite <- app_assoc. do 5 f_equal.
  unfold elapsed. by destruct (t1 =? 0)%Z; rewrite ?Z.sub_diag.
Qed.

Lemma invoke_elapsed_witness :
  let w := (createDebug (lit "app") (enable (sel "app") example_world).2).2 in
  let debug := MkInstance (lit "app") true 4 None None None None in
  let args1 := [sel "first"] in
  let args2 := [sel "second"] in
  let t1 := clock w (clock_reads w) in
  let t2 := clock w (S (clock_reads w)) in
  let elapsed := if (t1 =? 0)%Z then 0%Z else (t2 - t1)%Z in
  let '(a1, c1) := applyFormatters (formatters w) args1 in
  let '(a2, c2) := applyFormatters (formatters w) args2 in
  let w1 := (invoke 0 args1 w).2 in
  let w2 := (invoke 0 args2 w1).2 in
  clock_reads w2 = S (S (clock_reads w)) /\
  trace w2 =
    trace w ++
    (c1 ++ [LoggerCall (d_log debug)
              (prettifyLog (d_namespace debug) (d_color debug) 0 a1)]) ++
    (c2 ++ [LoggerCall (d_log debug)
              (prettifyLog (d_namespace debug) (d_color debug) elapsed a2)]).
Proof.
  cbv zeta.
  apply (invoke_elapsed
           (createDebug (lit "app") (enable (sel "app") example_world).2).2 0
           (MkInstance (lit "app") true 4 None None None None)
           [sel "first"] [sel "second"]); vm_compute; reflexivity.
Defined.

(** X15: a call of an instance touches nothing but the trace, the clock
    count and the three time variables of that instance: the rules, the
    registry, the formatter table and [DEBUG] stay, every other instance
    stays, and so do the namespace, color, [log] and flag of the one
    called. *)
Theorem invoke_frame `{Imports} (w : World) (self : addr)
    (args : list Value) :
  let w' := (invoke self args w).2 in
  names w' = names w /\ skips w' = skips w /\
  instances w' = instances w /\ formatters w' = formatters w /\
  env_DEBUG w' = env_DEBUG w /\
  length (heap w') = length (heap w) /\
  (forall a, a <> self -> heap w' !! a = heap w !! a) /\
  (forall d, heap w !! self = Some d ->
     exists d', heap w' !! self = Some d' /\
       d_namespace d' = d_namespace d /\ d_color d' = d_color d /\
       d_log d' = d_log d /\ d_enabled d' = d_enabled d).
Proof.
  cbv zeta. unfold invoke.
  destruct (heap w !! self) as [debug|] eqn:Hd.
  2:{ repeat split; try done. }
  destruct (d_enabled debug) eqn:He; cbn [negb].
  2:{ repeat split; try done. intros d [= <-]. by exists debug. }
  destruct (applyFormatters (formatters w) args) as [args' calls].
  cbn [snd names skips instances formatters env_DEBUG heap
       with_trace with_clock_reads with_heap].
  repeat split; try done.
  - apply length_insert.
  - intros a Ha. by rewrite list_lookup_insert_ne.
  - intros d [= <-]. eexists. split.
    + apply list_lookup_insert_eq. by apply lookup_lt_Some in Hd.
    + done.
Qed.

(** X16: the calls other than [enable] and [disable] leave the rule
    lists, the formatter table and [DEBUG] as they are, so the answers of
    [enabled] do not change. *)
Theorem perform_keeps_rules `{Imports} (c : call) (w : World) :
  names (perform c w) = names w /\ skips (perform c w) = skips w /\
  formatters (perform c w) = formatters w /\
  env_DEBUG (perform c w) = env_DEBUG w /\
  forall namespace, enabled (perform c w) namespace = enabled w namespace.
Proof.
  assert (names (perform c w) = names w /\ skips (perform c w) = skips w /\
          formatters (perform c w) = formatters w /\
          env_DEBUG (perform c w) = env_DEBUG w) as (Hn & Hs & Hf & He).
  { destruct c as [ns|self args|this|this sub delim|ns]; simpl; try done.
    - unfold invoke. destruct (heap w !! self) as [debug|]; [|done].
      destruct (d_enabled debug); simpl; [|done].
      by destruct (applyFormatters (formatters w) args).
    - unfold destroy. by destruct (list_find _ _) as [[i x]|].
    - unfold extend. by destruct (heap w !! this). }
  repeat split; try done.
  intros namespace. by rewrite !enabled_formula, Hn, Hs.
Qed.

(** X17: namespaces extend by concatenation, and [log] is handed down:
    extending an instance and then the child gives the namespace of the
    parent followed by both delimiters and sub-namespaces in order, with
    the parent's [log]. *)
Theorem extend_twice `{Imports} (w : World) (this : addr)
    (parent : DebugInstance) (s1 s2 : str) (d1 d2 : option str) :
  heap w !! this = Some parent ->
  let a1 := length (heap w) in
  let a2 := S (length (heap w)) in
  let w1 := (extend this s1 d1 w).2 in
  let w2 := (extend a1 s2 d2 w1).2 in
  (extend this s1 d1 w).1 = Normal a1 /\
  (extend a1 s2 d2 w1).1 = Normal a2 /\
  instances w2 = instances w ++ [a1; a2] /\
  exists grandchild,
    heap w2 !! a2 = Some grandchild /\
    d_namespace grandchild =
      d_namespace parent ++ default [":"] d1 ++ s1 ++
      default [":"] d2 ++ s2 /\
    d_log grandchild = d_log parent.
Proof.
  intros Hp a1 a2 w1 w2.
  assert (extend this s1 d1 w =
          (Normal a1,
           with_heap
             (heap w ++
              [MkInstance (d_namespace parent ++ default [":"] d1 ++ s1)
                 (enabled w (d_namespace parent ++ default [":"] d1 ++ s1))
                 (selectColor (d_namespace parent ++ default [":"] d1 ++ s1))
                 (d_log parent) None None None])
             (with_instances (instances w ++ [a1]) w))) as E1.
  { unfold extend. rewrite Hp.
    unfold mbind, M_bind, createDebug, modify, mret, M_ret.
    cbn [heap with_heap with_instances].
    rewrite (alter_app_r_alt _ _ _ (length (heap w))) by done.
    rewrite Nat.sub_diag. reflexivity. }
  unfold w2, w1. rewrite E1. cbn [fst snd]. split; [done|].
  unfold extend. cbn [heap with_heap with_instances].
  rewrite lookup_app_r, Nat.sub_diag by done. cbn [lookup list_lookup].
  unfold mbind, M_bind, createDebug, modify, mret, M_ret.
  cbn [fst snd heap instances with_heap with_instances d_namespace d_log].
  rewrite length_app. cbn [length].
  replace (length (heap w) + 1) with a2 by (unfold a2; lia).
  split; [done|]. split; [by rewrite <- app_assoc|].
  eexists. split.
  - rewrite list_lookup_alter, decide_True by done.
    rewrite lookup_app_r by (rewrite length_app; simpl; unfold a2; lia).
    rewrite length_app. cbn [length].
    replace (a2 - (length (heap w) + 1)) with 0 by (unfold a2; lia).
    reflexivity.
  - cbn [d_namespace d_log with_log]. split; [|done].
    by rewrite <- !app_assoc.
Qed.

Lemma extend_twice_witness :
  let w := (createDebug (lit "server") example_world).2 in
  let parent := MkInstance (lit "server") false 4 None None None None in
  let a1 := length (heap w) in
  let a2 := S (length (heap w)) in
  let w1 := (extend 0 (lit "http") None w).2 in
  let w2 := (extend a1 (lit "req") (Some (lit "-")) w1).2 in
  (extend 0 (lit "http") None w).1 = Normal a1 /\
  (extend a1 (lit "req") (Some (lit "-")) w1).1 = Normal a2 /\
  instances w2 = instances w ++ [a1; a2] /\
  exists grandchild,
    heap w2 !! a2 = Some grandchild /\
    d_namespace grandchild =
      d_namespace parent ++ default [":"] None ++ lit "http" ++
      default [":"] (Some (lit "-")) ++ lit "req" /\
    d_log grandchild = d_log parent.
Proof.
  cbv zeta.
  apply (extend_twice (createDebug (lit "server") example_world).2 0
           (MkInstance (lit "server") false 4 None None None None)
           (lit "http") (lit "req") None (Some (lit "-"))).
  vm_compute. reflexivity.
Defined.

(** X18: when [enable] throws, no instance was refreshed: the heap and
    the registry are exactly what they were, although the rule lists were
    already replaced. *)
Theorem enable_throw_keeps_instances (v : Value) (w : World) (e : string) :
  (enable v w).1 = Throw e ->
  heap (enable v w).2 = heap w /\ instances (enable v w).2 = instances w.
Proof.
  rewrite enable_unfold.
  match goal with |- context [forEach enable_piece ?l ?w0] =>
    destruct (enable_pieces_frame l w0) as [Hi Hh];
    destruct (forEach enable_piece l w0) as [[[]|e'|] w1] end;
    simpl in Hi, Hh; cbn [fst snd]; [done|by rewrite Hi, Hh|done].
Qed.

Lemma enable_throw_keeps_instances_witness :
  let w := (createDebug (lit "a") (enable (sel "*") example_world).2).2 in
  heap (enable (sel "b,(") w).2 = heap w /\
  instances (enable (sel "b,(") w).2 = instances w.
Proof.
  cbv zeta.
  apply (enable_throw_keeps_instances (sel "b,(")
           (createDebug (lit "a") (enable (sel "*") example_world).2).2
           "SyntaxError: Unterminated group").
  vm_compute. reflexivity.
Defined.

(** ** The format pre-pass, at its edges *)

Lemma prepare_args_string (args : list Value) :
  exists tpl rest, prepare_args args = VString tpl :: rest.
Proof. destruct args as [|[] rest]; by eexists _, _. Qed.

Lemma expand_kept_length (fm : gmap ascii Formatter) (ps : list piece) :
  forall rest, length (expand fm ps rest).1.2 <= length rest.
Proof.
  induction ps as [|p ps IH]; intros rest; [done|].
  destruct p as [c|letter]; cbn [expand].
  - specialize (IH rest).
    by destruct (expand fm ps rest) as [[out kept] calls].
  - destruct (Ascii.eqb letter "%").
    + specialize (IH rest).
      by destruct (expand fm ps rest) as [[out kept] calls].
    + specialize (IH (tail rest)).
      destruct (expand fm ps (tail rest)) as [[out kept] calls].
      destruct (fm !! letter); destruct rest; simpl in *; lia.
Qed.

(** X19: whatever it is given, the pre-pass returns a sequence that
    starts with a string, the template, and has no more elements than the
    arguments had once the first was coerced and [%O] put in front of a
    first argument that is not a string. *)
Theorem applyFormatters_template_first (fm : gmap ascii Formatter)
    (args : list Value) :
  exists out rest',
    (applyFormatters fm args).1 = VString out :: rest' /\
    length (VString out :: rest') <= length (prepare_args args).
Proof.
  rewrite applyFormatters_prepare.
  destruct (prepare_args_string args) as (tpl & rest & ->).
  rewrite applyFormatters_expand.
  pose proof (expand_kept_length fm (scan tpl) rest) as Hlen.
  destruct (expand fm (scan tpl) rest) as [[out kept] calls].
  exists out, kept. split; [done|]. simpl in *. lia.
Qed.

(** X20: a first argument that is neither a string nor an error is not
    the template: the template is [%O] and the value is its argument.
    With a formatter for [O] the result is the single string it returns
    for the value, followed by the other arguments; without one, [%O]
    stays in front of the value. *)
Theorem applyFormatters_inspects (fm : gmap ascii Formatter) (v : Value)
    (rest : list Value) :
  as_string (coerce v) = None ->
  applyFormatters fm (v :: rest) =
    match fm !! "O" with
    | Some formatter => (VString (formatter v) :: rest, [FormatterCall "O" v])
    | None => (VString (lit "%O") :: v :: rest, [])
    end.
Proof.
  intros Hv.
  assert (prepare_args (v :: rest) = VString (lit "%O") :: v :: rest) as Hp
    by (by destruct v).
  rewrite applyFormatters_prepare, Hp, applyFormatters_expand.
  change (scan (lit "%O")) with [Directive "O"]. cbn [expand Ascii.eqb Bool.eqb].
  cbn [tail head default option_list app].
  destruct (fm !! "O"); [by rewrite app_nil_r|done].
Qed.

Lemma applyFormatters_inspects_witness :
  applyFormatters example_formatters (VNumber 7 :: [sel "x"]) =
    match example_formatters !! "O" with
    | Some formatter =>
        (VString (formatter (VNumber 7)) :: [sel "x"],
         [FormatterCall "O" (VNumber 7)])
    | None => (VString (lit "%O") :: VNumber 7 :: [sel "x"], [])
    end.
Proof.
  apply (applyFormatters_inspects example_formatters (VNumber 7) [sel "x"]).
  reflexivity.
Defined.

(** X21: with an empty formatter table, as the module has it when it is
    loaded, the pre-pass calls nothing and returns the prepared
    arguments: a string template and its arguments come back as they are,
    and no argument at all becomes [%O] and [undefined]. *)
Theorem applyFormatters_no_formatters (args : list Value) :
  applyFormatters ∅ args = (prepare_args args, []).
Proof.
  rewrite applyFormatters_prepare.
  destruct (prepare_args_string args) as (tpl & rest & ->).
  rewrite applyFormatters_expand, expand_passes.
  - by rewrite (proj1 (unscan_scan tpl)).
  - generalize (scan tpl). intros ps.
    induction ps as [|[c|letter] ps IH]; [done|exact IH|].
    cbn [forallb passes]. rewrite lookup_empty, orb_true_r. exact IH.
Qed.
